(** * Task store and reminder scheduler of the to-do Telegram bot

    A shallow embedding of [bot.py]: the [TaskManager] class (the task list
    held in memory and its JSON file), the reminder sweep
    [send_reminders_sync] and the command handlers that change the list
    ([add_task_command], [schedule_command], [done_command]), followed by
    the properties of the specification that were checked against them and
    by further properties of the code.

    Conventions of the embedding.
    - A task dictionary is a record [Task]; the Python list [self.tasks] is a
      [list Task].  A reference to a task dictionary is its position in that
      list: the list is only ever appended to, so positions are stable.
    - The functions of Python's [datetime] module that parse and print text
      are an interface ([DatetimeLib]); the theorems hold for every
      implementation of it.  A parse that raises [ValueError] is [None].
    - Everything the code reads from outside (the clock, the outcome of a
      Telegram send, the outcome of a file write) is supplied by an [Env].
    - An operation is a function from the state to a result (a value or a
      raised exception) and the next state. *)

From Stdlib Require Import ZArith Lia Bool Ascii DecimalString Sorted.
From stdpp Require Import base option list strings.

Open Scope string_scope.
Open Scope Z_scope.
Open Scope list_scope.

(** ** Dates and times *)

Module Datetime.

Record date := mkdate { year : Z; month : Z; day : Z }.
Record time := mktime { hour : Z; minute : Z; second : Z; microsecond : Z }.
Record datetime := mkdatetime { dt_date : date; dt_time : time }.

(** [datetime.combine(d, t)] *)
Definition combine (d : date) (t : time) : datetime := mkdatetime d t.

(** Python compares dates and naive datetimes as the tuples of their
    fields, most significant first. *)
Fixpoint lex_compare (a b : list Z) : comparison :=
  match a, b with
  | [], [] => Eq
  | [], _ :: _ => Lt
  | _ :: _, [] => Gt
  | x :: a', y :: b' =>
      match Z.compare x y with
      | Eq => lex_compare a' b'
      | c => c
      end
  end.

Definition date_fields (d : date) : list Z := [year d; month d; day d].

Definition datetime_fields (x : datetime) : list Z :=
  date_fields (dt_date x) ++
  [hour (dt_time x); minute (dt_time x); second (dt_time x);
   microsecond (dt_time x)].

(** [a == b] on dates *)
Definition date_eqb (a b : date) : bool :=
  match lex_compare (date_fields a) (date_fields b) with
  | Eq => true
  | _ => false
  end.

(** [a >= b] on datetimes *)
Definition datetime_geb (a b : datetime) : bool :=
  match lex_compare (datetime_fields a) (datetime_fields b) with
  | Lt => false
  | _ => true
  end.

(** [a < b] on datetimes *)
Definition datetime_ltb (a b : datetime) : bool :=
  match lex_compare (datetime_fields a) (datetime_fields b) with
  | Lt => true
  | _ => false
  end.

End Datetime.

Export Datetime.

(** The text functions of [datetime] the bot calls.  [None] stands for a
    raised [ValueError].  The empty string matches neither format. *)
Class DatetimeLib := {
  (** [datetime.strptime(s, '%d.%m.%Y').date()] *)
  strptime_dmy : string -> option date;
  (** [datetime.strptime(s, '%H:%M').time()] *)
  strptime_hm : string -> option time;
  (** [datetime.fromisoformat(s)] *)
  fromisoformat : string -> option datetime;
  (** [dt.isoformat()] *)
  isoformat : datetime -> string;
  strptime_dmy_empty : strptime_dmy "" = None;
  strptime_hm_empty : strptime_hm "" = None
}.

(** ** The data model *)

(** The dictionary built by [add_task]. *)
Record Task := mkTask {
  id : Z;
  text : string;
  user_id : Z;
  priority : string;
  completed : bool;
  created_at : string;
  completed_at : option string;
  scheduled_date : option string;
  scheduled_time : option string
}.

(** [PRIORITIES] *)
Definition PRIORITIES : list string := ["низкий"; "средний"; "высокий"].

(** [PRIORITY_EMOJIS] *)
Definition PRIORITY_EMOJIS : list (string * string) :=
  [("низкий", "🟢"); ("средний", "🟡"); ("высокий", "🔴")].

(** [d.get(k, default)] on a dictionary given as an association list *)
Fixpoint dict_get (d : list (string * string)) (k default : string) : string :=
  match d with
  | [] => default
  | (k', v) :: d' => if String.eqb k' k then v else dict_get d' k default
  end.

(** Truth value of [task.get(field)] for an optional text field: [None] and
    the empty string are false. *)
Definition truthy (o : option string) : bool :=
  match o with
  | None => false
  | Some s => negb (String.eqb s "")
  end.

(** Exceptions.  [ValueError] is the one the code names; [OtherError]
    stands for every exception that is not a [ValueError] (the Telegram
    client raises [TelegramError] and its subclasses). *)
Inductive exn := ValueError | OtherError.

Inductive result (A : Type) :=
  | Ok (a : A)
  | Raise (e : exn).
Arguments Ok {A} a.
Arguments Raise {A} e.

(** A message handed to [bot.send_message] and delivered.  [sent_ref] is
    the position in [self.tasks] of the task it was rendered from. *)
Record Sent := mkSent { sent_ref : nat; sent_chat : Z; sent_text : string }.

(** The state: the list held by the [TaskManager], the content of
    [tasks.json] ([None] when the file is missing or does not hold JSON),
    and the reminders delivered so far. *)
Record State := mkState {
  tasks : list Task;
  file : option (list Task);
  outbox : list Sent
}.

Inductive send_result := Delivered | SendRaises (e : exn).

(** What is left in the file when writing it fails. *)
Inductive write_result := Written | WriteFails (residue : option (list Task)).

(** What one operation reads from outside. *)
Record Env := mkEnv {
  app_instance : bool;                     (* the global is assigned *)
  now : datetime;                          (* datetime.now() *)
  send : Z -> string -> send_result;       (* bot.send_message(chat_id, text) *)
  write : list Task -> write_result        (* open(..., 'w') and json.dump *)
}.

Definition M (A : Type) : Type := State -> result A * State.

#[global] Instance M_ret : MRet M := fun A (a : A) s => (Ok a, s).

#[global] Instance M_bind : MBind M := fun A B (k : A -> M B) (m : M A) s =>
  match m s with
  | (Ok a, s') => k a s'
  | (Raise e, s') => (Raise e, s')
  end.

Definition raise {A} (e : exn) : M A := fun s => (Raise e, s).

Definition get_tasks : M (list Task) := fun s => (Ok (tasks s), s).

Definition put_tasks (l : list Task) : M unit :=
  fun s => (Ok tt, mkState l (file s) (outbox s)).

(** The task dictionary a reference points to.  A reference taken from the
    list is always inside it; outside, the total function answers with
    [ValueError]. *)
Definition get_task (i : nat) : M Task :=
  fun s =>
    match tasks s !! i with
    | Some task => (Ok task, s)
    | None => (Raise ValueError, s)
    end.

(** Assignment to fields of the dictionary at reference [i]: the list in the
    state holds the new dictionary at that position. *)
Definition set_task (i : nat) (task : Task) : M unit :=
  fun s => (Ok tt, mkState (<[i := task]> (tasks s)) (file s) (outbox s)).

(** A library call that either returns or raises [ValueError]. *)
Definition parse {A} (o : option A) : M A :=
  match o with
  | Some a => mret a
  | None => raise ValueError
  end.

(** [try: body except ValueError: handler]; any other exception passes. *)
Definition try_except_ValueError {A} (body handler : M A) : M A :=
  fun s =>
    match body s with
    | (Raise ValueError, s') => handler s'
    | r => r
    end.

(** [for i in refs: body(i)]; an exception leaves the loop. *)
Fixpoint for_each (refs : list nat) (body : nat -> M unit) : M unit :=
  match refs with
  | [] => mret tt
  | i :: rest => body i;; for_each rest body
  end.

(** The string held by a text field known to be present. *)
Definition the (o : option string) : string := default "" o.

(** Positions of the tasks that satisfy [p], in list order, counted from
    [i]. *)
Fixpoint refs_from (p : Task -> bool) (i : nat) (l : list Task) : list nat :=
  match l with
  | [] => []
  | task :: rest =>
      if p task then i :: refs_from p (S i) rest else refs_from p (S i) rest
  end.

Definition newline : string := String (ascii_of_nat 10) "".

Section TaskManager.

Context `{DatetimeLib}.

(** *** [TaskManager.load_tasks], [TaskManager.save_tasks] *)

(** A missing file and a file that cannot be read as JSON both give the
    empty list. *)
Definition load_tasks (f : option (list Task)) : list Task :=
  match f with
  | Some l => l
  | None => []
  end.

(** [TaskManager.__init__] on the file as found at start. *)
Definition init (f : option (list Task)) : State :=
  mkState (load_tasks f) f [].

(** The [except Exception] of [save_tasks] logs and returns: the caller
    sees no failure. *)
Definition save_tasks (env : Env) : M unit :=
  fun s =>
    match write env (tasks s) with
    | Written => (Ok tt, mkState (tasks s) (Some (tasks s)) (outbox s))
    | WriteFails residue => (Ok tt, mkState (tasks s) residue (outbox s))
    end.

(** *** [TaskManager.add_task] *)

Definition new_task (env : Env) (task_id : Z) (text : string) (user_id : Z)
    (priority : string) (scheduled_date scheduled_time : option string) : Task :=
  {| id := task_id;
     text := text;
     user_id := user_id;
     priority := priority;
     completed := false;
     created_at := isoformat (now env);
     completed_at := None;
     scheduled_date := scheduled_date;
     scheduled_time := scheduled_time |}.

Definition add_task (env : Env) (text : string) (user_id : Z)
    (priority : string) (scheduled_date scheduled_time : option string) : M Z :=
  l ← get_tasks;
  let task_id := Z.of_nat (length l) + 1 in
  let task :=
    new_task env task_id text user_id priority scheduled_date scheduled_time in
  put_tasks (l ++ [task]);;
  save_tasks env;;
  mret task_id.

(** *** [TaskManager.get_user_tasks] *)

Definition get_user_tasks (uid : Z) (completed_filter : option bool)
    (s : State) : list Task :=
  match completed_filter with
  | None => List.filter (fun task => Z.eqb (user_id task) uid) (tasks s)
  | Some c =>
      List.filter
        (fun task => Z.eqb (user_id task) uid && Bool.eqb (completed task) c)
        (tasks s)
  end.

(** *** [TaskManager.mark_task_done] *)

Definition mark_done (env : Env) (task : Task) : Task :=
  {| id := id task;
     text := text task;
     user_id := user_id task;
     priority := priority task;
     completed := true;
     created_at := created_at task;
     completed_at := Some (isoformat (now env));
     scheduled_date := scheduled_date task;
     scheduled_time := scheduled_time task |}.

(** The loop of [mark_task_done] over the tasks from position [i] on. *)
Fixpoint mark_loop (env : Env) (uid tid : Z) (i : nat) (l : list Task) : M bool :=
  match l with
  | [] => mret false
  | task :: rest =>
      if Z.eqb (id task) tid && Z.eqb (user_id task) uid then
        set_task i (mark_done env task);;
        save_tasks env;;
        mret true
      else mark_loop env uid tid (S i) rest
  end.

Definition mark_task_done (env : Env) (uid tid : Z) : M bool :=
  l ← get_tasks;
  mark_loop env uid tid 0 l.

(** *** [TaskManager.get_today_tasks] *)

(** The loop of [get_today_tasks]; [today_tasks] is the list built so far.
    [fromisoformat] is called outside the [try], [strptime] inside it. *)
Fixpoint today_loop (today : date) (uid : Z) (l today_tasks : list Task)
    : result (list Task) :=
  match l with
  | [] => Ok today_tasks
  | task :: rest =>
      if Z.eqb (user_id task) uid && Bool.eqb (completed task) false then
        match fromisoformat (created_at task) with
        | None => Raise ValueError
        | Some created =>
            if date_eqb (dt_date created) today then
              today_loop today uid rest (today_tasks ++ [task])
            else if truthy (scheduled_date task) then
              match strptime_dmy (the (scheduled_date task)) with
              | Some scheduled =>
                  if date_eqb scheduled today then
                    today_loop today uid rest (today_tasks ++ [task])
                  else today_loop today uid rest today_tasks
              | None => today_loop today uid rest today_tasks
              end
            else today_loop today uid rest today_tasks
        end
      else today_loop today uid rest today_tasks
  end.

Definition get_today_tasks (env : Env) (uid : Z) : M (list Task) :=
  fun s => (today_loop (dt_date (now env)) uid (tasks s) [], s).

(** *** [TaskManager.get_scheduled_tasks] *)

Definition is_scheduled (task : Task) : bool :=
  negb (completed task) && truthy (scheduled_date task)
  && truthy (scheduled_time task).

(** The references to the scheduled task dictionaries. *)
Definition get_scheduled_tasks (s : State) : list nat :=
  refs_from is_scheduled 0 (tasks s).

(** *** [send_reminders_sync] *)

Definition reminder_message (task : Task) : string :=
  let priority_emoji := dict_get PRIORITY_EMOJIS (priority task) "⚪" in
  ("🔔 Напоминание о задаче!" +:+ newline +:+ newline)
  +:+ (priority_emoji +:+ " [" +:+ priority task +:+ "] #"
       +:+ NilZero.string_of_int (Z.to_int (id task)) +:+ ": " +:+ text task
       +:+ newline)
  +:+ ("📆 Запланировано: " +:+ the (scheduled_date task) +:+ " в "
       +:+ the (scheduled_time task)).

(** [await app_instance.bot.send_message(chat_id=..., text=...)] for the
    task at reference [i]. *)
Definition send_message (env : Env) (i : nat) (chat_id : Z) (text : string)
    : M unit :=
  fun s =>
    match send env chat_id text with
    | Delivered =>
        (Ok tt,
         mkState (tasks s) (file s) (outbox s ++ [mkSent i chat_id text]))
    | SendRaises e => (Raise e, s)
    end.

Definition clear_schedule (task : Task) : Task :=
  {| id := id task;
     text := text task;
     user_id := user_id task;
     priority := priority task;
     completed := completed task;
     created_at := created_at task;
     completed_at := completed_at task;
     scheduled_date := None;
     scheduled_time := None |}.

(** The body of the loop of [send_reminders_sync] for the task at
    reference [i]. *)
Definition remind (env : Env) (i : nat) : M unit :=
  task ← get_task i;
  if truthy (scheduled_date task) && truthy (scheduled_time task) then
    try_except_ValueError
      (task_date ← parse (strptime_dmy (the (scheduled_date task)));
       task_time ← parse (strptime_hm (the (scheduled_time task)));
       let task_datetime := combine task_date task_time in
       if datetime_geb (now env) task_datetime then
         send_message env i (user_id task) (reminder_message task);;
         set_task i (clear_schedule task);;
         save_tasks env
       else mret tt)
      (mret tt)
  else mret tt.

(** One scheduler tick.  ([main] assigns [app_instance] before it starts
    the first timer.) *)
Definition send_reminders_sync (env : Env) : M unit :=
  if negb (app_instance env) then mret tt
  else fun s => for_each (get_scheduled_tasks s) (remind env) s.

End TaskManager.

(** ** Runs of operations *)

(** The operations the command handlers and the timer perform on the one
    [task_manager]. *)
Inductive Op :=
  | Create (text : string) (owner : Z) (priority : string)
      (scheduled_date scheduled_time : option string)
  | Complete (owner task_id : Z)
  | Tick.

Section Runs.

Context `{DatetimeLib}.

(** One operation; the second component lists the id it issued, if any. *)
Definition run_op (env : Env) (op : Op) (s : State) : State * list Z :=
  match op with
  | Create text owner priority sd st =>
      match add_task env text owner priority sd st s with
      | (Ok task_id, s') => (s', [task_id])
      | (Raise _, s') => (s', [])
      end
  | Complete owner task_id => (snd (mark_task_done env owner task_id s), [])
  | Tick => (snd (send_reminders_sync env s), [])
  end.

(** A sequence of operations, each with what it reads from outside; the
    ids issued, in order. *)
Fixpoint run (ops : list (Env * Op)) (s : State) : State * list Z :=
  match ops with
  | [] => (s, [])
  | (env, op) :: rest =>
      let '(s1, ids1) := run_op env op s in
      let '(s2, ids2) := run rest s1 in
      (s2, ids1 ++ ids2)
  end.

(** Number of reminders delivered for the task at reference [i]. *)
Definition fired (i : nat) (s : State) : nat :=
  length (filter (fun m => sent_ref m = i) (outbox s)).

End Runs.

(** ** Vocabulary of the properties *)

Section Vocabulary.

Context `{DatetimeLib}.

(** The task [mark_task_done] looks for. *)
Definition is_target (uid tid : Z) (task : Task) : Prop :=
  id task = tid /\ user_id task = uid.

#[global] Instance is_target_dec uid tid task
    : Decision (is_target uid tid task) :=
  and_dec (decide (id task = tid)) (decide (user_id task = uid)).

(** The instant a task is scheduled for: both fields combined. *)
Definition due_instant (task : Task) : option datetime :=
  ds ← scheduled_date task;
  ts ← scheduled_time task;
  d ← strptime_dmy ds;
  tm ← strptime_hm ts;
  Some (combine d tm).

(** The task has an instant and the clock has reached it. *)
Definition due (env : Env) (task : Task) : bool :=
  match due_instant task with
  | Some instant => datetime_geb (now env) instant
  | None => false
  end.

(** The state after the reminder of the task at [i] was delivered. *)
Definition fire (env : Env) (i : nat) (task : Task) (s : State) : State :=
  snd (save_tasks env
         (mkState (<[i := clear_schedule task]> (tasks s)) (file s)
            (outbox s ++ [mkSent i (user_id task) (reminder_message task)]))).

(** Both schedule fields are null. *)
Definition spent (i : nat) (s : State) : Prop :=
  exists task, tasks s !! i = Some task
    /\ scheduled_date task = None /\ scheduled_time task = None.

(** The pass over the task at [j] does not leave the loop. *)
Definition passes (env : Env) (s : State) (j : nat) : Prop :=
  exists task, tasks s !! j = Some task
    /\ (due env task = true ->
        send env (user_id task) (reminder_message task) <> SendRaises OtherError).

(** Between two states: the task at [i] got at most one more reminder, and
    none once both its schedule fields were null. *)
Definition once (i : nat) (s s' : State) : Prop :=
  (fired i s <= fired i s')%nat
  /\ (fired i s' <= S (fired i s))%nat
  /\ (spent i s -> spent i s' /\ fired i s' = fired i s)
  /\ (fired i s' = S (fired i s) -> spent i s').

(** The tasks of one owner that are due today, in the words of the
    specification: uncompleted, and created today or scheduled for today. *)
Definition created_on (d : date) (task : Task) : bool :=
  match fromisoformat (created_at task) with
  | Some created => date_eqb (dt_date created) d
  | None => false
  end.

Definition scheduled_on (d : date) (task : Task) : bool :=
  match scheduled_date task with
  | Some ds =>
      match strptime_dmy ds with
      | Some scheduled => date_eqb scheduled d
      | None => false
      end
  | None => false
  end.

Definition due_today_spec (today : date) (owner : Z) (task : Task) : bool :=
  Z.eqb (user_id task) owner && negb (completed task)
  && (created_on today task || scheduled_on today task).

(** What the specification promises of a creation with input that must be
    rejected: it fails, and nothing is changed. *)
Definition create_rejects (env : Env) (text : string) (owner : Z)
    (priority : string) (sd st : option string) (s : State) : Prop :=
  (exists e, fst (add_task env text owner priority sd st s) = Raise e)
  /\ snd (add_task env text owner priority sd st s) = s.

(** What the specification promises when the save of a creation fails:
    the caller is told, and the list in memory is as before. *)
Definition save_failure_reported (env : Env) (text : string) (owner : Z)
    (priority : string) (sd st : option string) (s : State) : Prop :=
  (exists e, fst (add_task env text owner priority sd st s) = Raise e)
  /\ tasks (snd (add_task env text owner priority sd st s)) = tasks s.


(** No pass before the one for the task at [i] leaves the loop: no earlier
    scheduled task is due with a send that raises something else than
    [ValueError]. *)
Definition reaches (env : Env) (s : State) (i : nat) : Prop :=
  forall j task,
    (j < i)%nat ->
    tasks s !! j = Some task ->
    is_scheduled task = true ->
    due env task = true ->
    send env (user_id task) (reminder_message task) <> SendRaises OtherError.

(** The operations of a sequence of ticks. *)
Definition ticks (envs : list Env) : list (Env * Op) :=
  map (fun env => (env, Tick)) envs.

(** What the specification promises of a tick and the task at [i], if that
    task is uncompleted and its date and time are present and parse: the
    tick delivers its reminder exactly when the clock has reached the
    combined instant. *)
Definition fires_iff_due (env : Env) (s : State) (i : nat) : Prop :=
  forall task ds ts d tm,
    tasks s !! i = Some task ->
    completed task = false ->
    scheduled_date task = Some ds ->
    scheduled_time task = Some ts ->
    strptime_dmy ds = Some d ->
    strptime_hm ts = Some tm ->
    (fired i (snd (send_reminders_sync env s)) = S (fired i s)
     <-> datetime_geb (now env) (combine d tm) = true).

(** An operation that leaves the task with id [tid] of owner [uid],
    scheduled for [instant], waiting for its reminder: a creation, a
    completion asked for another id or by another owner, or a tick whose
    clock is before the instant. *)
Definition leaves_waiting (uid tid : Z) (instant : datetime)
    (p : Env * Op) : Prop :=
  match snd p with
  | Create _ _ _ _ _ => True
  | Complete owner task_id => ~ (task_id = tid /\ owner = uid)
  | Tick => datetime_ltb (now (fst p)) instant = true
  end.

End Vocabulary.

(** ** A strict implementation of the [datetime] interface

    It accepts the zero-padded forms [DD.MM.YYYY], [HH:MM] and
    [YYYY-MM-DDTHH:MM:SS] with an optional [.ffffff], checks the ranges of
    the calendar, and prints the form [isoformat] prints.  It serves to
    evaluate the operations on examples. *)

Module Strict.

Definition digit (c : ascii) : option Z :=
  let n := Z.of_nat (nat_of_ascii c) in
  if (48 <=? n)%Z && (n <=? 57)%Z then Some (n - 48) else None.

Fixpoint number (s : string) (acc : Z) : option Z :=
  match s with
  | EmptyString => Some acc
  | String c s' =>
      match digit c with
      | Some d => number s' (10 * acc + d)
      | None => None
      end
  end.

(** The number written in the [len] characters from [start]. *)
Definition field (s : string) (start len : nat) : option Z :=
  let f := String.substring start len s in
  if Nat.eqb (String.length f) len then number f 0 else None.

Definition sep (s : string) (pos : nat) (c : ascii) : bool :=
  match String.get pos s with
  | Some c' => Ascii.eqb c c'
  | None => false
  end.

Definition is_leap (y : Z) : bool :=
  (y mod 4 =? 0)%Z && (negb (y mod 100 =? 0)%Z || (y mod 400 =? 0)%Z).

Definition days_in_month (y m : Z) : Z :=
  if (m =? 2)%Z then (if is_leap y then 29 else 28)
  else if (m =? 4)%Z || (m =? 6)%Z || (m =? 9)%Z || (m =? 11)%Z then 30
  else 31.

Definition valid_date (y m d : Z) : bool :=
  (1 <=? y)%Z && (1 <=? m)%Z && (m <=? 12)%Z
  && (1 <=? d)%Z && (d <=? days_in_month y m)%Z.

Definition valid_time (h mi s : Z) : bool :=
  (h <=? 23)%Z && (mi <=? 59)%Z && (s <=? 59)%Z.

Definition parse_dmy (s : string) : option date :=
  if Nat.eqb (String.length s) 10 && sep s 2 "." && sep s 5 "." then
    d ← field s 0 2; m ← field s 3 2; y ← field s 6 4;
    if valid_date y m d then Some (mkdate y m d) else None
  else None.

Definition parse_hm (s : string) : option time :=
  if Nat.eqb (String.length s) 5 && sep s 2 ":" then
    h ← field s 0 2; mi ← field s 3 2;
    if valid_time h mi 0 then Some (mktime h mi 0 0) else None
  else None.

Definition parse_iso (s : string) : option datetime :=
  let n := String.length s in
  if (Nat.eqb n 19 || (Nat.eqb n 26 && sep s 19 "."))
     && sep s 4 "-" && sep s 7 "-" && sep s 10 "T"
     && sep s 13 ":" && sep s 16 ":" then
    y ← field s 0 4; m ← field s 5 2; d ← field s 8 2;
    h ← field s 11 2; mi ← field s 14 2; sec ← field s 17 2;
    us ← (if Nat.eqb n 26 then field s 20 6 else Some 0);
    if valid_date y m d && valid_time h mi sec then
      Some (mkdatetime (mkdate y m d) (mktime h mi sec us))
    else None
  else None.

(** [z] written with [n] decimal digits. *)
Fixpoint digits (n : nat) (z : Z) : string :=
  match n with
  | O => ""
  | S k => digits k (z / 10) +:+ String (ascii_of_nat (Z.to_nat (48 + z mod 10))) ""
  end.

Definition print_iso (x : datetime) : string :=
  let d := dt_date x in
  let t := dt_time x in
  digits 4 (year d) +:+ "-" +:+ digits 2 (month d) +:+ "-" +:+ digits 2 (day d)
  +:+ "T" +:+ digits 2 (hour t) +:+ ":" +:+ digits 2 (minute t) +:+ ":"
  +:+ digits 2 (second t)
  +:+ (if (microsecond t =? 0)%Z then "" else "." +:+ digits 6 (microsecond t)).

#[export] Instance lib : DatetimeLib := {|
  strptime_dmy := parse_dmy;
  strptime_hm := parse_hm;
  fromisoformat := parse_iso;
  isoformat := print_iso;
  strptime_dmy_empty := eq_refl;
  strptime_hm_empty := eq_refl
|}.

End Strict.

(** ** Concrete clocks, notifiers and task lists *)

Module Example.

Import Strict.

Definition at_time (y mo d h mi sec : Z) : datetime :=
  mkdatetime (mkdate y mo d) (mktime h mi sec 0).

Definition noon : datetime := at_time 2024 1 20 12 0 0.
Definition afternoon : datetime := at_time 2024 1 20 15 0 30.
Definition evening : datetime := at_time 2024 1 20 18 0 0.

(** A notifier that delivers everything, and one whose sends to [chat]
    raise a Telegram error. *)
Definition delivers : Z -> string -> send_result := fun _ _ => Delivered.

Definition fails_for (chat : Z) : Z -> string -> send_result :=
  fun c _ => if Z.eqb c chat then SendRaises OtherError else Delivered.

Definition disk_ok : list Task -> write_result := fun _ => Written.

(** A disk on which every write fails and leaves the file as [residue]. *)
Definition disk_broken (residue : option (list Task))
    : list Task -> write_result :=
  fun _ => WriteFails residue.

Definition env_at (t : datetime) : Env := mkEnv true t delivers disk_ok.

Definition empty : State := mkState [] None [].

(** [/schedule call 20.01.2024 15:00] by user 7, then
    [/schedule pay 20.01.2024 14:00 высокий] by user 8, both at noon. *)
Definition one_scheduled : State :=
  snd (add_task (env_at noon) "call" 7 "средний"
         (Some "20.01.2024") (Some "15:00") empty).

Definition two_scheduled : State :=
  snd (add_task (env_at noon) "pay" 8 "высокий"
         (Some "20.01.2024") (Some "14:00") one_scheduled).

(** A list as it can be loaded from a file edited by hand: the second
    task of user 7 has a [created_at] that is no timestamp. *)
Definition hand_edited : State :=
  mkState
    [mkTask 1 "call" 7 "средний" false "2024-01-20T12:00:00" None None None;
     mkTask 2 "pay" 7 "высокий" false "yesterday" None None None]
    None [].

(** Tasks of user 7 seen at noon of 20.01.2024: created today; created the
    day before and scheduled for today; created today and completed;
    created the day before with a date that does not parse. *)
Definition mixed : State :=
  mkState
    [mkTask 1 "a" 7 "средний" false "2024-01-20T09:00:00" None None None;
     mkTask 2 "b" 7 "средний" false "2024-01-19T09:00:00" None
       (Some "20.01.2024") (Some "15:00");
     mkTask 3 "c" 7 "средний" true "2024-01-20T09:30:00"
       (Some "2024-01-20T10:00:00") None None;
     mkTask 4 "d" 7 "средний" false "2024-01-19T09:00:00" None
       (Some "32.13.2024") None;
     mkTask 5 "e" 8 "средний" false "2024-01-20T09:00:00" None None None]
    None [].

(** The notifier is down for user 7 in the afternoon. *)
Definition env_down : Env := mkEnv true afternoon (fails_for 7) disk_ok.

(** Every write fails and leaves no readable file. *)
Definition env_broken : Env := mkEnv true noon delivers (disk_broken None).


End Example.

(** ** The command handlers

    [add_task_command], [schedule_command] and [done_command] are the
    callers of the task manager.  A handler takes the id of the sender
    ([update.effective_user.id]) and the words after the command
    ([context.args]); its result is the text it passes to
    [update.message.reply_text], its last action on every path.  The
    methods of [str] whose result depends on the Unicode tables are an
    interface. *)

Class StrLib := {
  (** [s.split()] *)
  str_split : string -> list string;
  (** [s.lower()] *)
  str_lower : string -> string;
  (** [int(s)]; [None] stands for a raised [ValueError] *)
  str_int : string -> option Z
}.

(** [sep.join(l)] *)
Fixpoint join (sep : string) (l : list string) : string :=
  match l with
  | [] => ""
  | x :: rest =>
      match rest with
      | [] => x
      | _ :: _ => x +:+ sep +:+ join sep rest
      end
  end.

(** [s.rsplit(' ', 1)] when [s] holds a space: the text before the last
    space and the text behind it. *)
Fixpoint rsplit_space (s : string) : option (string * string) :=
  match s with
  | EmptyString => None
  | String c rest =>
      match rsplit_space rest with
      | Some (l, r) => Some (String c l, r)
      | None => if Ascii.eqb c " " then Some ("", rest) else None
      end
  end.

(** [s.rsplit(' ', 2)] *)
Definition rsplit2 (s : string) : list string :=
  match rsplit_space s with
  | None => [s]
  | Some (l, r) =>
      match rsplit_space l with
      | None => [l; r]
      | Some (l', m) => [l'; m; r]
      end
  end.

(** [x in l] for a list of strings *)
Definition in_list (x : string) (l : list string) : bool :=
  existsb (String.eqb x) l.

(** [words[-1]], read only where the list is known not to be empty *)
Definition last_word (words : list string) : string := default "" (last words).

(** The string holds a space. *)
Fixpoint has_space (s : string) : bool :=
  match s with
  | EmptyString => false
  | String c rest => Ascii.eqb c " " || has_space rest
  end.

(** The reply texts. *)
Definition reply_add_usage : string :=
  "❌ Пожалуйста, укажите задачу!" +:+ newline
  +:+ "Пример: /add Купить молоко низкий".

Definition reply_added (priority : string) (task_id : Z) (task_text : string)
    : string :=
  let priority_emoji := dict_get PRIORITY_EMOJIS priority "⚪" in
  "✅ Задача добавлена!" +:+ newline +:+ newline
  +:+ priority_emoji +:+ " [" +:+ priority +:+ "] #"
  +:+ NilZero.string_of_int (Z.to_int task_id) +:+ ": " +:+ task_text.

Definition reply_schedule_usage : string :=
  "❌ Пожалуйста, укажите задачу, дату и время!" +:+ newline +:+ newline
  +:+ "Пример: /schedule Встреча с клиентом 20.01.2024 15:00 высокий"
  +:+ newline +:+ newline
  +:+ "Формат даты: DD.MM.YYYY" +:+ newline
  +:+ "Формат времени: HH:MM".

Definition reply_bad_format : string :=
  "❌ Неверный формат! Используйте:" +:+ newline
  +:+ "/schedule <задача> <дата> <время>" +:+ newline
  +:+ "Пример: /schedule Встреча с клиентом 20.01.2024 15:00".

Definition reply_bad_date : string :=
  "❌ Неверный формат даты! Используйте DD.MM.YYYY" +:+ newline
  +:+ "Пример: 20.01.2024".

Definition reply_bad_time : string :=
  "❌ Неверный формат времени! Используйте HH:MM" +:+ newline
  +:+ "Пример: 15:00".

Definition reply_scheduled (priority : string) (task_id : Z)
    (task_text scheduled_date scheduled_time : string) : string :=
  let priority_emoji := dict_get PRIORITY_EMOJIS priority "⚪" in
  ("✅ Задача запланирована!" +:+ newline +:+ newline)
  +:+ (priority_emoji +:+ " [" +:+ priority +:+ "] #"
       +:+ NilZero.string_of_int (Z.to_int task_id) +:+ ": " +:+ task_text
       +:+ newline)
  +:+ ("📆 Дата: " +:+ scheduled_date +:+ " в " +:+ scheduled_time).

Definition reply_done_usage : string :=
  "❌ Пожалуйста, укажите ID задачи!" +:+ newline +:+ "Пример: /done 5".

Definition reply_not_a_number : string := "❌ ID задачи должен быть числом!".

Definition reply_done (task_id : Z) : string :=
  "✅ Задача #" +:+ NilZero.string_of_int (Z.to_int task_id)
  +:+ " отмечена как выполненная!".

Definition reply_not_found (task_id : Z) : string :=
  "❌ Задача #" +:+ NilZero.string_of_int (Z.to_int task_id)
  +:+ " не найдена или уже выполнена!".

Section Handlers.

Context `{DatetimeLib} `{StrLib}.

(** *** [TaskManager.get_reminders] *)

Definition get_reminders (uid : Z) (s : State) : list Task :=
  get_user_tasks uid (Some false) s.

(** *** [add_task_command] *)

Definition add_task_command (env : Env) (uid : Z) (args : list string)
    : M string :=
  match args with
  | [] => mret reply_add_usage
  | _ :: _ =>
      let args := join " " args in
      let words := str_split args in
      let '(priority, task_text) :=
        if (1 <? length words)%nat
           && in_list (str_lower (last_word words)) PRIORITIES
        then (str_lower (last_word words), join " " (removelast words))
        else ("средний", args) in
      task_id ← add_task env task_text uid priority None None;
      mret (reply_added priority task_id task_text)
  end.

(** *** [schedule_command] *)

Definition schedule_command (env : Env) (uid : Z) (args : list string)
    : M string :=
  if (length args <? 3)%nat then mret reply_schedule_usage
  else
    let args := join " " args in
    let words := str_split args in
    let '(priority, args_to_parse) :=
      if (3 <=? length words)%nat
         && in_list (str_lower (last_word words)) PRIORITIES
      then (str_lower (last_word words), join " " (removelast words))
      else ("средний", args) in
    match rsplit2 args_to_parse with
    | [task_text; scheduled_date; scheduled_time] =>
        match strptime_dmy scheduled_date with
        | None => mret reply_bad_date
        | Some _ =>
            match strptime_hm scheduled_time with
            | None => mret reply_bad_time
            | Some _ =>
                task_id ← add_task env task_text uid priority
                            (Some scheduled_date) (Some scheduled_time);
                mret (reply_scheduled priority task_id task_text
                        scheduled_date scheduled_time)
            end
        end
    | _ => mret reply_bad_format
    end.

(** *** [done_command] *)

Definition done_command (env : Env) (uid : Z) (args : list string)
    : M string :=
  match args with
  | [] => mret reply_done_usage
  | arg :: _ =>
      match str_int arg with
      | None => mret reply_not_a_number
      | Some task_id =>
          marked ← mark_task_done env uid task_id;
          if marked : bool then mret (reply_done task_id)
          else mret (reply_not_found task_id)
      end
  end.

End Handlers.

(** The commands users send and the tick of the timer. *)
Inductive Cmd :=
  | CmdAdd (uid : Z) (args : list string)
  | CmdSchedule (uid : Z) (args : list string)
  | CmdDone (uid : Z) (args : list string)
  | CmdTick.

Section Sessions.

Context `{DatetimeLib} `{StrLib}.

Definition run_cmd (env : Env) (cmd : Cmd) (s : State) : State :=
  match cmd with
  | CmdAdd uid args => snd (add_task_command env uid args s)
  | CmdSchedule uid args => snd (schedule_command env uid args s)
  | CmdDone uid args => snd (done_command env uid args s)
  | CmdTick => snd (send_reminders_sync env s)
  end.

(** A session: the commands and ticks in the order the bot handles them. *)
Fixpoint run_cmds (cmds : list (Env * Cmd)) (s : State) : State :=
  match cmds with
  | [] => s
  | (env, cmd) :: rest => run_cmds rest (run_cmd env cmd s)
  end.

(** What memory holds is what a restart would load. *)
Definition synced (s : State) : Prop := load_tasks (file s) = tasks s.

(** [completed] is set exactly when [completed_at] holds a time. *)
Definition completion_consistent (task : Task) : Prop :=
  completed task = true <-> is_Some (completed_at task).

(** The task at position [k] carries the id [k + 1]. *)
Definition numbered (l : list Task) : Prop :=
  forall k task, l !! k = Some task -> id task = Z.of_nat k + 1.

(** A task as the commands create it: a priority of [PRIORITIES], and
    either no schedule or a date and a time that both parse. *)
Definition well_formed (task : Task) : Prop :=
  in_list (priority task) PRIORITIES = true
  /\ ((scheduled_date task = None /\ scheduled_time task = None)
      \/ is_Some (due_instant task)).

(** Every write of the operation succeeds. *)
Definition writes (env : Env) : Prop := forall l, write env l = Written.

(** [a <= b] on datetimes, through Python's [>=]. *)
Definition datetime_le (a b : datetime) : Prop := datetime_geb b a = true.

End Sessions.

(** ** A strict implementation of the [str] interface

    [split] cuts at the ASCII white space, [lower] maps the Latin and the
    Russian capital letters (as UTF-8) to the small ones, [int] reads an
    optional sign and decimal digits.  It serves to evaluate the handlers
    on examples written with these characters. *)

Module StrictStr.

Definition is_space (c : ascii) : bool :=
  let n := nat_of_ascii c in
  Nat.eqb n 32 || (Nat.leb 9 n && Nat.leb n 13).

(** The words of [s]; [word] is the word being read, in reverse. *)
Fixpoint split_from (s : string) (word : string) : list string :=
  match s with
  | EmptyString =>
      match word with
      | EmptyString => []
      | _ => [word]
      end
  | String c rest =>
      if is_space c then
        match word with
        | EmptyString => split_from rest ""
        | _ => word :: split_from rest ""
        end
      else split_from rest (word +:+ String c "")
  end.

Definition split (s : string) : list string := split_from s "".

Definition byte (n : nat) : ascii := ascii_of_nat n.

Fixpoint lower (s : string) : string :=
  match s with
  | EmptyString => ""
  | String c rest =>
      let n := nat_of_ascii c in
      if Nat.leb 65 n && Nat.leb n 90 then String (byte (n + 32)) (lower rest)
      else if Nat.eqb n 208 then
        match rest with
        | String c2 rest2 =>
            let m := nat_of_ascii c2 in
            if Nat.leb 144 m && Nat.leb m 159 then
              String c (String (byte (m + 32)) (lower rest2))
            else if Nat.leb 160 m && Nat.leb m 175 then
              String (byte 209) (String (byte (m - 32)) (lower rest2))
            else if Nat.eqb m 129 then
              String (byte 209) (String (byte 145) (lower rest2))
            else String c (String c2 (lower rest2))
        | EmptyString => String c ""
        end
      else String c (lower rest)
  end.

Definition to_int (s : string) : option Z :=
  match s with
  | EmptyString => None
  | String c rest =>
      if Ascii.eqb c "-" then
        match rest with
        | EmptyString => None
        | _ => Z.opp <$> Strict.number rest 0
        end
      else if Ascii.eqb c "+" then
        match rest with
        | EmptyString => None
        | _ => Strict.number rest 0
        end
      else Strict.number s 0
  end.

#[export] Instance lib : StrLib := {|
  str_split := split;
  str_lower := lower;
  str_int := to_int
|}.

End StrictStr.

(** ** Basic facts *)

Lemma lex_compare_refl (a : list Z) : lex_compare a a = Eq.
Proof.
  induction a as [|x a IH]; simpl; [reflexivity|].
  rewrite Z.compare_refl. exact IH.
Qed.

Lemma date_eqb_true (a b : date) : date_eqb a b = true <-> a = b.
Proof.
  split.
  - destruct a as [y1 m1 d1], b as [y2 m2 d2].
    unfold date_eqb, date_fields; simpl.
    destruct (Z.compare_spec y1 y2); try discriminate.
    destruct (Z.compare_spec m1 m2); try discriminate.
    destruct (Z.compare_spec d1 d2); try discriminate.
    intros _. congruence.
  - intros ->. unfold date_eqb. rewrite lex_compare_refl. reflexivity.
Qed.

Lemma datetime_ltb_geb (a b : datetime) :
  datetime_ltb a b = negb (datetime_geb a b).
Proof.
  unfold datetime_ltb, datetime_geb.
  destruct (lex_compare _ _); reflexivity.
Qed.

Lemma truthy_true (o : option string) :
  truthy o = true <-> exists s, o = Some s /\ s <> "".
Proof.
  destruct o as [s|]; simpl.
  - rewrite negb_true_iff. split.
    + intros E. exists s. split; [reflexivity|].
      intros ->. discriminate.
    + intros (s' & [= <-] & Hne).
      destruct (String.eqb_spec s ""); congruence.
  - split; [discriminate|]. intros (s & E & _). discriminate.
Qed.

Ltac unfold_M :=
  unfold mbind, M_bind, mret, M_ret, raise, get_tasks, put_tasks, set_task,
    get_task, parse, try_except_ValueError in *.

(** ** [mark_task_done] *)

Section MarkTaskDone.

Context `{DatetimeLib}.

Lemma target_test uid tid task :
  Z.eqb (id task) tid && Z.eqb (user_id task) uid = bool_decide (is_target uid tid task).
Proof.
  unfold is_target. case_bool_decide as E.
  - destruct E as [-> ->]. rewrite !Z.eqb_refl. reflexivity.
  - apply andb_false_iff.
    destruct (Z.eqb_spec (id task) tid), (Z.eqb_spec (user_id task) uid);
      auto; tauto.
Qed.

(** The loop stops at the first task with the id and the owner asked for,
    whatever its [completed] field holds. *)
Lemma mark_loop_eq env uid tid l : forall i s,
  mark_loop env uid tid i l s =
  match list_find (is_target uid tid) l with
  | None => (Ok false, s)
  | Some (k, task) =>
      (set_task (i + k) (mark_done env task);; save_tasks env;; mret true) s
  end.
Proof.
  induction l as [|task rest IH]; intros i s; [reflexivity|].
  cbn [mark_loop list_find]. rewrite target_test.
  case_bool_decide as E.
  - rewrite decide_True by exact E. rewrite Nat.add_0_r. reflexivity.
  - rewrite decide_False by exact E. rewrite IH.
    destruct (list_find (is_target uid tid) rest) as [[k t]|]; simpl;
      [|reflexivity].
    replace (i + S k)%nat with (S i + k)%nat by lia. reflexivity.
Qed.

Lemma mark_task_done_eq env uid tid s :
  mark_task_done env uid tid s =
  match list_find (is_target uid tid) (tasks s) with
  | None => (Ok false, s)
  | Some (k, task) =>
      (set_task k (mark_done env task);; save_tasks env;; mret true) s
  end.
Proof.
  unfold mark_task_done. unfold_M. rewrite mark_loop_eq. reflexivity.
Qed.

Lemma mark_task_done_tasks env uid tid s :
  tasks (snd (mark_task_done env uid tid s)) =
  match list_find (is_target uid tid) (tasks s) with
  | None => tasks s
  | Some (k, task) => <[k := mark_done env task]> (tasks s)
  end.
Proof.
  rewrite mark_task_done_eq.
  destruct (list_find _ _) as [[k t]|]; [|reflexivity].
  unfold_M. unfold save_tasks. simpl.
  destruct (write env _); reflexivity.
Qed.

Lemma mark_task_done_result env uid tid s :
  fst (mark_task_done env uid tid s) =
  Ok (bool_decide (is_Some (list_find (is_target uid tid) (tasks s)))).
Proof.
  rewrite mark_task_done_eq.
  destruct (list_find _ _) as [[k t]|].
  - unfold_M. unfold save_tasks. simpl. destruct (write env _); reflexivity.
  - reflexivity.
Qed.

Lemma mark_task_done_outbox env uid tid s :
  outbox (snd (mark_task_done env uid tid s)) = outbox s.
Proof.
  rewrite mark_task_done_eq.
  destruct (list_find _ _) as [[k t]|]; [|reflexivity].
  unfold_M. unfold save_tasks. simpl. destruct (write env _); reflexivity.
Qed.

(** Marking keeps the target a target: the id and the owner stay. *)
Lemma list_find_marked env uid tid l k task :
  list_find (is_target uid tid) l = Some (k, task) ->
  list_find (is_target uid tid) (<[k := mark_done env task]> l)
  = Some (k, mark_done env task).
Proof.
  intros Hf. apply list_find_Some in Hf as (Hk & Ht & Hbefore).
  apply list_find_Some. split; [|split].
  - apply list_lookup_insert_eq. eapply lookup_lt_Some, Hk.
  - exact Ht.
  - intros j y Hj Hlt.
    rewrite list_lookup_insert_ne in Hj by lia. eauto.
Qed.

End MarkTaskDone.

(** ** The reminder sweep *)

Section Reminders.

Context `{DatetimeLib}.

Lemma due_instant_Some task ds ts d tm :
  scheduled_date task = Some ds -> scheduled_time task = Some ts ->
  strptime_dmy ds = Some d -> strptime_hm ts = Some tm ->
  due_instant task = Some (combine d tm).
Proof.
  intros E1 E2 E3 E4. unfold due_instant.
  rewrite E1, E2. simpl. rewrite E3. simpl. rewrite E4. reflexivity.
Qed.

Lemma parse_truthy_dmy o d :
  strptime_dmy (the o) = Some d -> truthy o = true.
Proof.
  destruct o as [s|]; simpl.
  - intros E. destruct (String.eqb_spec s ""); [|reflexivity].
    subst s. rewrite strptime_dmy_empty in E. discriminate.
  - rewrite strptime_dmy_empty. discriminate.
Qed.

Lemma parse_truthy_hm o tm :
  strptime_hm (the o) = Some tm -> truthy o = true.
Proof.
  destruct o as [s|]; simpl.
  - intros E. destruct (String.eqb_spec s ""); [|reflexivity].
    subst s. rewrite strptime_hm_empty in E. discriminate.
  - rewrite strptime_hm_empty. discriminate.
Qed.

Lemma due_instant_the task :
  due_instant task =
  d ← strptime_dmy (the (scheduled_date task));
  tm ← strptime_hm (the (scheduled_time task));
  Some (combine d tm).
Proof.
  unfold due_instant.
  destruct (scheduled_date task) as [ds|], (scheduled_time task) as [ts|];
    simpl; try reflexivity.
  - destruct (strptime_dmy ds); simpl; [|reflexivity].
    rewrite strptime_hm_empty. reflexivity.
  - rewrite strptime_dmy_empty. reflexivity.
  - rewrite strptime_dmy_empty. reflexivity.
Qed.

Lemma due_clear_schedule env task : due env (clear_schedule task) = false.
Proof. reflexivity. Qed.

(** The loop body, case by case. *)
Lemma remind_eq env i s :
  remind env i s =
  match tasks s !! i with
  | None => (Raise ValueError, s)
  | Some task =>
      if due env task then
        match send env (user_id task) (reminder_message task) with
        | Delivered => (Ok tt, fire env i task s)
        | SendRaises ValueError => (Ok tt, s)
        | SendRaises OtherError => (Raise OtherError, s)
        end
      else (Ok tt, s)
  end.
Proof.
  unfold remind, due. unfold_M.
  destruct (tasks s !! i) as [task|]; [|reflexivity].
  rewrite due_instant_the.
  destruct (strptime_dmy (the (scheduled_date task))) as [d|] eqn:Ed; simpl.
  - rewrite (parse_truthy_dmy _ _ Ed).
    destruct (strptime_hm (the (scheduled_time task))) as [tm|] eqn:Et; simpl.
    + rewrite (parse_truthy_hm _ _ Et). simpl.
      destruct (datetime_geb (now env) (combine d tm)); [|reflexivity].
      unfold send_message, fire.
      destruct (send env _ _) as [|[|]]; simpl; try reflexivity.
      unfold save_tasks; simpl. destruct (write env _); reflexivity.
    + destruct (truthy (scheduled_time task)); reflexivity.
  - destruct (truthy (scheduled_date task)), (truthy (scheduled_time task));
      reflexivity.
Qed.

Lemma fire_tasks env i task s :
  tasks (fire env i task s) = <[i := clear_schedule task]> (tasks s).
Proof. unfold fire, save_tasks. simpl. destruct (write env _); reflexivity. Qed.

Lemma fire_outbox env i task s :
  outbox (fire env i task s)
  = outbox s ++ [mkSent i (user_id task) (reminder_message task)].
Proof. unfold fire, save_tasks. simpl. destruct (write env _); reflexivity. Qed.

Lemma fired_fire env i j task s :
  fired i (fire env j task s)
  = if decide (j = i) then S (fired i s) else fired i s.
Proof.
  unfold fired. rewrite fire_outbox, filter_app, length_app.
  rewrite filter_cons, filter_nil. simpl.
  destruct (decide (j = i)); simpl; lia.
Qed.

(** What one pass of the loop body does, seen from the task at [i]. *)
Lemma remind_at env i task j s r s' :
  tasks s !! i = Some task ->
  remind env j s = (r, s') ->
  (tasks s' !! i = Some task /\ fired i s' = fired i s)
  \/ (j = i /\ r = Ok tt
      /\ tasks s' !! i = Some (clear_schedule task)
      /\ fired i s' = S (fired i s)
      /\ due env task = true
      /\ send env (user_id task) (reminder_message task) = Delivered).
Proof.
  intros Hi. rewrite remind_eq.
  destruct (tasks s !! j) as [tj|] eqn:Hj; [|intros [= <- <-]; auto].
  destruct (due env tj) eqn:Hdue; [|intros [= <- <-]; auto].
  destruct (send env _ _) as [|[|]] eqn:Hsend; try (intros [= <- <-]; auto).
  rewrite fire_tasks, fired_fire.
  destruct (decide (j = i)) as [->|Hne].
  - right. assert (tj = task) as -> by congruence.
    repeat split; auto.
    apply list_lookup_insert_eq. eapply lookup_lt_Some, Hi.
  - left. rewrite list_lookup_insert_ne by exact Hne. auto.
Qed.

(** A position outside the list stays outside and gets no reminder. *)
Lemma remind_outside env i j s r s' :
  tasks s !! i = None ->
  remind env j s = (r, s') ->
  tasks s' !! i = None /\ fired i s' = fired i s.
Proof.
  intros Hi. rewrite remind_eq.
  destruct (tasks s !! j) as [tj|] eqn:Hj; [|intros [= <- <-]; auto].
  destruct (due env tj) eqn:Hdue; [|intros [= <- <-]; auto].
  destruct (send env _ _) as [|[|]] eqn:Hsend; try (intros [= <- <-]; auto).
  rewrite fire_tasks, fired_fire.
  assert (j <> i) by congruence.
  rewrite decide_False by assumption.
  rewrite list_lookup_insert_ne by assumption. auto.
Qed.

Lemma for_each_cons (body : nat -> M unit) j rest s :
  for_each (j :: rest) body s =
  match body j s with
  | (Ok _, s1) => for_each rest body s1
  | (Raise e, s1) => (Raise e, s1)
  end.
Proof. reflexivity. Qed.

(** The whole loop, seen from the task at [i]: it is left as it was, or
    its reminder was delivered once and its schedule cleared. *)
Lemma loop_at env i refs : forall task s r s',
  tasks s !! i = Some task ->
  for_each refs (remind env) s = (r, s') ->
  (tasks s' !! i = Some task /\ fired i s' = fired i s)
  \/ (tasks s' !! i = Some (clear_schedule task)
      /\ fired i s' = S (fired i s)
      /\ due env task = true
      /\ send env (user_id task) (reminder_message task) = Delivered).
Proof.
  induction refs as [|j rest IH]; intros task s r s' Hi.
  - intros [= <- <-]. auto.
  - rewrite for_each_cons.
    destruct (remind env j s) as [[[]|e] s1] eqn:Hstep.
    + intros Hrest.
      destruct (remind_at _ _ _ _ _ _ _ Hi Hstep)
        as [[Hi1 Hf1]|(_ & _ & Hi1 & Hf1 & Hdue & Hsend)].
      * destruct (IH _ _ _ _ Hi1 Hrest) as [[? ?]|(? & ? & ? & ?)].
        -- left. split; [assumption|congruence].
        -- right. repeat split; try assumption. congruence.
      * destruct (IH _ _ _ _ Hi1 Hrest) as [[? ?]|(_ & _ & Hd & _)].
        -- right. repeat split; try assumption. congruence.
        -- rewrite due_clear_schedule in Hd. discriminate.
    + intros [= <- <-].
      destruct (remind_at _ _ _ _ _ _ _ Hi Hstep)
        as [[Hi1 Hf1]|(_ & Hr & _)]; [auto|discriminate].
Qed.

Lemma loop_outside env i refs : forall s r s',
  tasks s !! i = None ->
  for_each refs (remind env) s = (r, s') ->
  tasks s' !! i = None /\ fired i s' = fired i s.
Proof.
  induction refs as [|j rest IH]; intros s r s' Hi.
  - intros [= <- <-]. auto.
  - rewrite for_each_cons.
    destruct (remind env j s) as [[[]|e] s1] eqn:Hstep.
    + intros Hrest.
      destruct (remind_outside _ _ _ _ _ _ Hi Hstep) as [Hi1 Hf1].
      destruct (IH _ _ _ Hi1 Hrest) as [? ?]. split; [assumption|congruence].
    + intros [= <- <-]. eapply remind_outside; eassumption.
Qed.

End Reminders.

(** ** References and the order of the sweep *)

Lemma elem_of_refs_from (p : Task -> bool) (l : list Task) : forall (k j : nat),
  j ∈ refs_from p k l <->
  (k <= j)%nat /\ exists task, l !! (j - k)%nat = Some task /\ p task = true.
Proof.
  induction l as [|t rest IH]; intros k j; simpl.
  - split; [intros Hin; inversion Hin|].
    intros (_ & task & Hl & _). discriminate.
  - assert (Hrest : j ∈ refs_from p (S k) rest <->
                    (k < j)%nat /\ exists task,
                      (t :: rest) !! (j - k)%nat = Some task /\ p task = true).
    { rewrite IH. split.
      - intros (Hle & task & Hl & Hp). split; [lia|].
        exists task. split; [|exact Hp].
        replace (j - k)%nat with (S (j - S k)) by lia. exact Hl.
      - intros (Hlt & task & Hl & Hp). split; [lia|].
        exists task. split; [|exact Hp].
        replace (j - k)%nat with (S (j - S k)) in Hl by lia. exact Hl. }
    assert (Hhead : j = k -> (t :: rest) !! (j - k)%nat = Some t).
    { intros ->. rewrite Nat.sub_diag. reflexivity. }
    destruct (p t) eqn:Hp.
    + rewrite elem_of_cons, Hrest. split.
      * intros [->|(Hlt & task & Hl & Hpt)].
        -- split; [lia|]. exists t. auto.
        -- split; [lia|]. exists task. auto.
      * intros (Hle & task & Hl & Hpt).
        destruct (decide (j = k)) as [->|Hne]; [left; reflexivity|].
        right. split; [lia|]. exists task. auto.
    + rewrite Hrest. split.
      * intros (Hlt & task & Hl & Hpt). split; [lia|]. exists task. auto.
      * intros (Hle & task & Hl & Hpt).
        destruct (decide (j = k)) as [->|Hne].
        -- rewrite Hhead in Hl by reflexivity. congruence.
        -- split; [lia|]. exists task. auto.
Qed.

Lemma refs_from_sorted (p : Task -> bool) (l : list Task) : forall k,
  StronglySorted lt (refs_from p k l).
Proof.
  induction l as [|t rest IH]; intros k; simpl; [constructor|].
  destruct (p t); [|apply IH].
  constructor; [apply IH|].
  apply Forall_forall. intros j Hj.
  apply elem_of_refs_from in Hj as [Hle _]. lia.
Qed.

Section Sweep.

Context `{DatetimeLib}.

Lemma elem_of_get_scheduled_tasks s i :
  i ∈ get_scheduled_tasks s <->
  exists task, tasks s !! i = Some task /\ is_scheduled task = true.
Proof.
  unfold get_scheduled_tasks. rewrite elem_of_refs_from.
  rewrite Nat.sub_0_r. split.
  - intros [_ Hex]. exact Hex.
  - intros Hex. split; [lia|exact Hex].
Qed.

Lemma remind_passes env s j :
  passes env s j -> exists s1, remind env j s = (Ok tt, s1).
Proof.
  intros (task & Hj & Hsend). rewrite remind_eq, Hj.
  destruct (due env task); [|eauto].
  destruct (send env _ _) as [|[|]]; eauto.
  exfalso. apply Hsend; reflexivity.
Qed.

Lemma remind_keeps_passes env s j r s1 k :
  remind env j s = (r, s1) -> passes env s k -> passes env s1 k.
Proof.
  intros Hstep (task & Hk & Hsend).
  destruct (remind_at _ _ _ _ _ _ _ Hk Hstep)
    as [[Hk1 _]|(_ & _ & Hk1 & _)].
  - exists task. auto.
  - exists (clear_schedule task). split; [exact Hk1|].
    rewrite due_clear_schedule. discriminate.
Qed.

Lemma remind_other env j k s r s1 :
  j <> k -> remind env j s = (r, s1) ->
  tasks s1 !! k = tasks s !! k /\ fired k s1 = fired k s.
Proof.
  intros Hne Hstep.
  destruct (tasks s !! k) as [task|] eqn:Hk.
  - destruct (remind_at _ _ _ _ _ _ _ Hk Hstep) as [?|(? & _)];
      [assumption|congruence].
  - eapply remind_outside; eassumption.
Qed.

Lemma remind_raises env j s e s1 :
  remind env j s = (Raise e, s1) -> s1 = s.
Proof.
  rewrite remind_eq.
  destruct (tasks s !! j) as [task|]; [|congruence].
  destruct (due env task); [|congruence].
  destruct (send env _ _) as [|[|]]; congruence.
Qed.

(** A due task whose send succeeds is reached and fired, provided no
    earlier pass leaves the loop. *)
Lemma loop_fires env i task refs : forall s r s',
  StronglySorted lt refs ->
  i ∈ refs ->
  tasks s !! i = Some task ->
  due env task = true ->
  send env (user_id task) (reminder_message task) = Delivered ->
  (forall j, j ∈ refs -> (j < i)%nat -> passes env s j) ->
  for_each refs (remind env) s = (r, s') ->
  fired i s' = S (fired i s).
Proof.
  induction refs as [|j rest IH]; intros s r s' Hsorted Hin Hi Hdue Hsend Hpass.
  - inversion Hin.
  - apply StronglySorted_inv in Hsorted as [Hsorted Hall].
    rewrite for_each_cons.
    destruct (decide (j = i)) as [->|Hne].
    + rewrite remind_eq, Hi, Hdue, Hsend. intros Hrest.
      assert (Hi1 : tasks (fire env i task s) !! i = Some (clear_schedule task)).
      { rewrite fire_tasks. apply list_lookup_insert_eq.
        eapply lookup_lt_Some, Hi. }
      destruct (loop_at _ _ _ _ _ _ _ Hi1 Hrest) as [[_ Hf]|(_ & _ & Hd & _)].
      * rewrite Hf, fired_fire, decide_True by reflexivity. reflexivity.
      * rewrite due_clear_schedule in Hd. discriminate.
    + apply elem_of_cons in Hin as [Heq|Hin]; [congruence|].
      assert (Hlt : (j < i)%nat).
      { rewrite Forall_forall in Hall. apply Hall. exact Hin. }
      destruct (remind_passes env s j) as [s1 Hstep].
      { apply Hpass; [left|exact Hlt]. }
      rewrite Hstep. intros Hrest.
      destruct (remind_other _ _ _ _ _ _ Hne Hstep) as [Hi1 Hf1].
      rewrite <- Hf1.
      eapply (IH s1); try eassumption.
      * congruence.
      * intros k Hk Hki. eapply remind_keeps_passes; [exact Hstep|].
        apply Hpass; [right; exact Hk|exact Hki].
Qed.


(** The sweep neither adds nor removes a task, and changes no id. *)
Lemma remind_ids env j s r s1 :
  remind env j s = (r, s1) -> id <$> tasks s1 = id <$> tasks s.
Proof.
  rewrite remind_eq.
  destruct (tasks s !! j) as [task|] eqn:Hj; [|congruence].
  destruct (due env task); [|congruence].
  destruct (send env _ _) as [|[|]]; try congruence.
  intros [= _ <-]. rewrite fire_tasks, list_fmap_insert.
  apply list_insert_id. rewrite list_lookup_fmap, Hj. reflexivity.
Qed.

Lemma loop_ids env refs : forall s r s',
  for_each refs (remind env) s = (r, s') -> id <$> tasks s' = id <$> tasks s.
Proof.
  induction refs as [|j rest IH]; intros s r s'.
  - intros [= _ <-]. reflexivity.
  - rewrite for_each_cons.
    destruct (remind env j s) as [[[]|e] s1] eqn:Hstep.
    + intros Hrest. rewrite (IH _ _ _ Hrest). eapply remind_ids, Hstep.
    + intros [= _ <-]. eapply remind_ids, Hstep.
Qed.

(** A tick is the loop over the scheduled tasks, or nothing at all. *)
Lemma tick_eq env s :
  send_reminders_sync env s
  = if app_instance env
    then for_each (get_scheduled_tasks s) (remind env) s
    else (Ok tt, s).
Proof. unfold send_reminders_sync. destruct (app_instance env); reflexivity. Qed.

Lemma tick_is_loop env s :
  exists refs, send_reminders_sync env s = for_each refs (remind env) s.
Proof.
  rewrite tick_eq. destruct (app_instance env).
  - exists (get_scheduled_tasks s). reflexivity.
  - exists []. reflexivity.
Qed.

Lemma tick_ids env s :
  id <$> tasks (snd (send_reminders_sync env s)) = id <$> tasks s.
Proof.
  destruct (tick_is_loop env s) as [refs ->].
  destruct (for_each _ _ s) as [r s'] eqn:E. eapply loop_ids, E.
Qed.

End Sweep.

(** ** [add_task] and runs of operations *)

Section RunFacts.

Context `{DatetimeLib}.

Lemma save_tasks_eq env s :
  save_tasks env s =
  (Ok tt,
   mkState (tasks s)
     (match write env (tasks s) with
      | Written => Some (tasks s)
      | WriteFails residue => residue
      end)
     (outbox s)).
Proof. unfold save_tasks. destruct (write env _); reflexivity. Qed.

(** A save that succeeds followed by a start of the bot gives back the
    list that was saved. *)
Lemma save_then_load env s :
  write env (tasks s) = Written ->
  tasks (init (file (snd (save_tasks env s)))) = tasks s.
Proof. intros Hw. rewrite save_tasks_eq. simpl. rewrite Hw. reflexivity. Qed.

Lemma add_task_eq env text uid prio sd st s :
  let task_id := Z.of_nat (length (tasks s)) + 1 in
  let l := tasks s ++ [new_task env task_id text uid prio sd st] in
  add_task env text uid prio sd st s =
  (Ok task_id,
   mkState l
     (match write env l with
      | Written => Some l
      | WriteFails residue => residue
      end)
     (outbox s)).
Proof.
  unfold add_task. unfold_M. simpl. rewrite save_tasks_eq. reflexivity.
Qed.

Lemma once_refl i s : once i s s.
Proof. unfold once. repeat split; auto; lia. Qed.

Lemma once_trans i s1 s2 s3 : once i s1 s2 -> once i s2 s3 -> once i s1 s3.
Proof.
  intros (A1 & A2 & A3 & A4) (B1 & B2 & B3 & B4).
  unfold once. split; [lia|]. split; [|split].
  - destruct (decide (fired i s2 = S (fired i s1))) as [E|E].
    + destruct (B3 (A4 E)) as [_ E']. lia.
    + lia.
  - intros Hs. destruct (A3 Hs) as [Hs2 E2].
    destruct (B3 Hs2) as [Hs3 E3]. split; [exact Hs3|congruence].
  - intros E.
    destruct (decide (fired i s2 = S (fired i s1))) as [E2|E2].
    + destruct (B3 (A4 E2)) as [Hs3 _]. exact Hs3.
    + apply B4. lia.
Qed.

Lemma once_same_outbox i s s' :
  outbox s' = outbox s -> (spent i s -> spent i s') -> once i s s'.
Proof.
  intros Ho Hs.
  assert (E : fired i s' = fired i s) by (unfold fired; rewrite Ho; reflexivity).
  unfold once. rewrite E. repeat split; auto; lia.
Qed.

Lemma once_add_task i env text uid prio sd st s :
  once i s (snd (add_task env text uid prio sd st s)).
Proof.
  rewrite add_task_eq. simpl. apply once_same_outbox; [reflexivity|].
  intros (task & Hi & E). exists task. split; [|exact E]. simpl.
  apply lookup_app_l_Some. exact Hi.
Qed.

Lemma once_mark_task_done i env uid tid s :
  once i s (snd (mark_task_done env uid tid s)).
Proof.
  apply once_same_outbox; [apply mark_task_done_outbox|].
  intros (task & Hi & E1 & E2). unfold spent.
  rewrite mark_task_done_tasks.
  destruct (list_find _ _) as [[k t]|] eqn:Hf; [|eauto].
  apply list_find_Some in Hf as (Hk & _).
  destruct (decide (k = i)) as [->|Hne].
  - exists (mark_done env t).
    rewrite list_lookup_insert_eq by (eapply lookup_lt_Some, Hk).
    assert (t = task) as -> by congruence. auto.
  - exists task. rewrite list_lookup_insert_ne by exact Hne. auto.
Qed.

Lemma once_tick i env s : once i s (snd (send_reminders_sync env s)).
Proof.
  destruct (tick_is_loop env s) as [refs ->].
  destruct (for_each _ _ s) as [r s'] eqn:E. simpl.
  destruct (tasks s !! i) as [task|] eqn:Hi.
  - destruct (loop_at _ _ _ _ _ _ _ Hi E) as [[Hi' Hf]|(Hi' & Hf & Hd & _)].
    + unfold once. rewrite Hf. split; [lia|]. split; [lia|]. split; [|lia].
      intros (t & Ht & E1 & E2). split; [|reflexivity].
      exists task. assert (t = task) as -> by congruence. auto.
    + unfold once. rewrite Hf. split; [lia|]. split; [lia|]. split.
      * intros (t & Ht & E1 & E2). exfalso.
        assert (t = task) as -> by congruence.
        unfold due, due_instant in Hd. rewrite E1 in Hd. discriminate.
      * intros _. exists (clear_schedule task). auto.
  - destruct (loop_outside _ _ _ _ _ _ Hi E) as [Hi' Hf].
    unfold once. rewrite Hf. split; [lia|]. split; [lia|]. split; [|lia].
    intros (t & Ht & _). congruence.
Qed.

Lemma once_run_op i env op s : once i s (fst (run_op env op s)).
Proof.
  destruct op as [text owner prio sd st|owner tid|]; simpl.
  - pose proof (once_add_task i env text owner prio sd st s) as Ho.
    destruct (add_task _ _ _ _ _ _ s) as [[task_id|e] s']; exact Ho.
  - apply once_mark_task_done.
  - apply once_tick.
Qed.

Lemma run_cons env op rest s :
  run ((env, op) :: rest) s =
  (fst (run rest (fst (run_op env op s))),
   snd (run_op env op s) ++ snd (run rest (fst (run_op env op s)))).
Proof.
  simpl. destruct (run_op env op s) as [s1 ids1]. simpl.
  destruct (run rest s1) as [s2 ids2]. reflexivity.
Qed.

Lemma once_run i ops : forall s, once i s (fst (run ops s)).
Proof.
  induction ops as [|[env op] rest IH]; intros s.
  - apply once_refl.
  - rewrite run_cons. simpl.
    eapply once_trans; [apply once_run_op|apply IH].
Qed.

(** The ids held by the list after one operation: those before it, then
    the one issued. *)
Lemma run_op_ids env op s :
  id <$> tasks (fst (run_op env op s))
  = (id <$> tasks s) ++ snd (run_op env op s)
  /\ Forall (fun task_id => task_id = Z.of_nat (length (tasks s)) + 1)
       (snd (run_op env op s)).
Proof.
  destruct op as [text owner prio sd st|owner tid|]; simpl.
  - rewrite add_task_eq. simpl. rewrite fmap_app. simpl. auto.
  - rewrite app_nil_r. split; [|constructor].
    rewrite mark_task_done_tasks.
    destruct (list_find _ _) as [[k t]|] eqn:Hf; [|reflexivity].
    apply list_find_Some in Hf as (Hk & _).
    rewrite list_fmap_insert. apply list_insert_id.
    rewrite list_lookup_fmap, Hk. reflexivity.
  - rewrite app_nil_r. split; [apply tick_ids|constructor].
Qed.

Lemma run_ids ops : forall s,
  id <$> tasks (fst (run ops s)) = (id <$> tasks s) ++ snd (run ops s)
  /\ StronglySorted Z.lt (snd (run ops s))
  /\ Forall (fun task_id => Z.of_nat (length (tasks s)) < task_id)
       (snd (run ops s)).
Proof.
  induction ops as [|[env op] rest IH]; intros s.
  - simpl. rewrite app_nil_r. repeat split; constructor.
  - rewrite run_cons. simpl.
    destruct (run_op_ids env op s) as [E1 F1].
    destruct (IH (fst (run_op env op s))) as (E2 & S2 & F2).
    assert (Hlen : length (tasks (fst (run_op env op s)))
                   = (length (tasks s) + length (snd (run_op env op s)))%nat).
    { rewrite <- (length_fmap id (tasks (fst (run_op env op s)))), E1.
      rewrite length_app, length_fmap. reflexivity. }
    split; [|split].
    + rewrite E2, E1, app_assoc. reflexivity.
    + destruct (snd (run_op env op s)) as [|x [|y ids]] eqn:Eids.
      * exact S2.
      * simpl. constructor; [exact S2|].
        apply Forall_inv in F1. subst x.
        eapply Forall_impl; [exact F2|]. simpl. intros z Hz.
        rewrite Hlen in Hz. simpl in Hz. lia.
      * destruct op; simpl in Eids.
        -- rewrite add_task_eq in Eids. discriminate.
        -- discriminate.
        -- discriminate.
    + apply Forall_app. split.
      * eapply Forall_impl; [exact F1|]. simpl. intros z ->. lia.
      * eapply Forall_impl; [exact F2|]. simpl. intros z Hz.
        rewrite Hlen in Hz. lia.
Qed.

End RunFacts.

(** ** [get_today_tasks] *)

Section Today.

Context `{DatetimeLib}.

Lemma scheduled_on_the d task :
  scheduled_on d task =
  truthy (scheduled_date task)
  && match strptime_dmy (the (scheduled_date task)) with
     | Some scheduled => date_eqb scheduled d
     | None => false
     end.
Proof.
  unfold scheduled_on. destruct (scheduled_date task) as [ds|]; simpl;
    [|reflexivity].
  destruct (String.eqb_spec ds "") as [->|_]; simpl; [|reflexivity].
  rewrite strptime_dmy_empty. reflexivity.
Qed.

Lemma eqb_false_negb (b : bool) : Bool.eqb b false = negb b.
Proof. destruct b; reflexivity. Qed.

Lemma today_loop_filter today uid l : forall acc,
  (forall task, task ∈ l -> user_id task = uid -> completed task = false ->
     is_Some (fromisoformat (created_at task))) ->
  today_loop today uid l acc
  = Ok (acc ++ List.filter (due_today_spec today uid) l).
Proof.
  induction l as [|task rest IH]; intros acc Hiso; simpl.
  - rewrite app_nil_r. reflexivity.
  - assert (Hrest : forall acc',
              today_loop today uid rest acc'
              = Ok (acc' ++ List.filter (due_today_spec today uid) rest)).
    { intros acc'. apply IH. intros t Ht. apply Hiso. right. exact Ht. }
    assert (Ekeep : due_today_spec today uid task
                    = Z.eqb (user_id task) uid && negb (completed task)
                      && (created_on today task || scheduled_on today task))
      by reflexivity.
    rewrite Ekeep, eqb_false_negb. clear Ekeep.
    destruct (Z.eqb (user_id task) uid && negb (completed task)) eqn:Hsel;
      simpl; [|apply Hrest].
    apply andb_true_iff in Hsel as [Hu Hc].
    apply Z.eqb_eq in Hu. apply negb_true_iff in Hc.
    destruct (Hiso task (list_elem_of_here _ _) Hu Hc) as [created Ecr].
    unfold created_on. rewrite Ecr.
    destruct (date_eqb (dt_date created) today); simpl.
    + rewrite Hrest, <- app_assoc. reflexivity.
    + rewrite scheduled_on_the.
      destruct (truthy (scheduled_date task)); simpl; [|apply Hrest].
      destruct (strptime_dmy (the (scheduled_date task))) as [scheduled|];
        [|apply Hrest].
      destruct (date_eqb scheduled today); [|apply Hrest].
      rewrite Hrest, <- app_assoc. reflexivity.
Qed.

Lemma today_loop_raises today uid l : forall acc,
  (exists task, task ∈ l /\ user_id task = uid /\ completed task = false
     /\ fromisoformat (created_at task) = None) ->
  today_loop today uid l acc = Raise ValueError.
Proof.
  induction l as [|h rest IH]; intros acc (task & Hin & Hu & Hc & Hbad).
  - inversion Hin.
  - simpl. rewrite eqb_false_negb.
    destruct (Z.eqb (user_id h) uid && negb (completed h)) eqn:Hsel.
    + destruct (fromisoformat (created_at h)) as [created|] eqn:Ecr;
        [|reflexivity].
      assert (Hin' : task ∈ rest).
      { apply elem_of_cons in Hin as [->|Hin]; [congruence|exact Hin]. }
      assert (Hex : exists task, task ∈ rest /\ user_id task = uid
                      /\ completed task = false
                      /\ fromisoformat (created_at task) = None) by eauto.
      destruct (date_eqb (dt_date created) today); [apply IH, Hex|].
      destruct (truthy (scheduled_date h)); [|apply IH, Hex].
      destruct (strptime_dmy (the (scheduled_date h))) as [scheduled|];
        [|apply IH, Hex].
      destruct (date_eqb scheduled today); apply IH, Hex.
    + apply IH. exists task. split; [|auto].
      apply elem_of_cons in Hin as [->|Hin]; [|exact Hin].
      rewrite Hc in Hsel. apply Z.eqb_eq in Hu. rewrite Hu in Hsel.
      discriminate.
Qed.

End Today.

(** ** The properties of the specification *)

Lemma StronglySorted_lt_NoDup (l : list Z) : StronglySorted Z.lt l -> NoDup l.
Proof.
  induction 1 as [|x l Hs IH Hall]; constructor; [|exact IH].
  intros Hin. rewrite Forall_forall in Hall.
  specialize (Hall x Hin). lia.
Qed.

Section Claims.

Context `{DatetimeLib}.

(** C7: [mark_task_done] for an id that no task has, or that only tasks of
    other owners have, returns [False] and leaves the whole state — every
    task, the file, the delivered reminders — as it was. *)
Theorem complete_absent_or_foreign_unchanged env uid tid s :
  (forall task, task ∈ tasks s -> id task = tid -> user_id task <> uid) ->
  mark_task_done env uid tid s = (Ok false, s).
Proof.
  intros Hnone. rewrite mark_task_done_eq.
  destruct (list_find _ _) as [[k task]|] eqn:Hf; [|reflexivity].
  apply list_find_Some in Hf as (Hk & [Hid Hu] & _).
  exfalso. eapply Hnone; [|exact Hid|exact Hu].
  eapply list_elem_of_lookup_2, Hk.
Qed.

(** C2 (the code departs from it): a second [mark_task_done] on the task
    the first one completed returns [True] again and overwrites
    [completed_at] with the time of the second call. *)
Theorem complete_twice_true_again env1 env2 uid tid s :
  fst (mark_task_done env1 uid tid s) = Ok true ->
  let s1 := snd (mark_task_done env1 uid tid s) in
  fst (mark_task_done env2 uid tid s1) = Ok true
  /\ exists k task,
       list_find (is_target uid tid) (tasks s) = Some (k, task)
       /\ tasks s1 !! k = Some (mark_done env1 task)
       /\ tasks (snd (mark_task_done env2 uid tid s1)) !! k
          = Some (mark_done env2 (mark_done env1 task))
       /\ completed_at (mark_done env2 (mark_done env1 task))
          = Some (isoformat (now env2)).
Proof.
  intros Hfirst s1. subst s1.
  rewrite mark_task_done_result in Hfirst.
  destruct (list_find (is_target uid tid) (tasks s)) as [[k task]|] eqn:Hf.
  2: { rewrite bool_decide_eq_false_2 in Hfirst; [discriminate|].
       intros [x Hx]. discriminate. }
  pose proof (list_find_marked env1 _ _ _ _ _ Hf) as Hf1.
  assert (Hk : (k < length (tasks s))%nat).
  { apply list_find_Some in Hf as (Hk & _). eapply lookup_lt_Some, Hk. }
  split.
  - rewrite mark_task_done_result, mark_task_done_tasks, Hf, Hf1.
    rewrite bool_decide_eq_true_2 by eauto. reflexivity.
  - exists k, task. split; [reflexivity|].
    rewrite !mark_task_done_tasks, Hf, Hf1.
    split; [|split].
    + apply list_lookup_insert_eq. exact Hk.
    + apply list_lookup_insert_eq. rewrite length_insert. exact Hk.
    + reflexivity.
Qed.

(** C3 (as amended): [add_task] validates nothing.  For every text (the
    empty one too), priority, date and time it returns the next id, appends
    the task as given, and the task is listed for its owner. *)
Theorem add_task_accepts_everything env text owner prio sd st s :
  let task_id := Z.of_nat (length (tasks s)) + 1 in
  let task := new_task env task_id text owner prio sd st in
  let s' := snd (add_task env text owner prio sd st s) in
  fst (add_task env text owner prio sd st s) = Ok task_id
  /\ tasks s' = tasks s ++ [task]
  /\ task ∈ get_user_tasks owner None s'
  /\ task ∈ get_user_tasks owner (Some false) s'.
Proof.
  intros task_id task s'. subst s'. rewrite add_task_eq. simpl.
  fold task_id. fold task.
  assert (Hin : task ∈ tasks s ++ [task]).
  { apply elem_of_app. right. apply list_elem_of_here. }
  repeat split.
  - unfold get_user_tasks. simpl. apply list_elem_of_In, filter_In.
    split; [apply list_elem_of_In, Hin|]. simpl. apply Z.eqb_refl.
  - unfold get_user_tasks. simpl. apply list_elem_of_In, filter_In.
    split; [apply list_elem_of_In, Hin|]. simpl.
    rewrite Z.eqb_refl. reflexivity.
Qed.

(** C5: in every run of creations, completions and ticks on one task
    manager, the ids returned by the creations are strictly increasing (so
    each is greater than all issued before it and none occurs twice), all
    lie above the number of tasks the run started with, and the ids held
    by the list are those held before followed by the ids issued: no
    operation changes the id of a task. *)
Theorem issued_ids_strictly_increase ops s :
  let ids := snd (run ops s) in
  StronglySorted Z.lt ids
  /\ NoDup ids
  /\ Forall (fun task_id => Z.of_nat (length (tasks s)) < task_id) ids
  /\ id <$> tasks (fst (run ops s)) = (id <$> tasks s) ++ ids.
Proof.
  intros ids. subst ids.
  destruct (run_ids ops s) as (E & Hs & Hf).
  repeat split; auto using StronglySorted_lt_NoDup.
Qed.

(** C6: when the [created_at] of every uncompleted task of the owner is a
    timestamp, [get_today_tasks] returns, in the order of the list, exactly
    the uncompleted tasks of the owner that were created today or are
    scheduled for today; a [scheduled_date] that does not parse counts as
    not scheduled for today and raises nothing. *)
Theorem today_tasks_exact env uid s :
  (forall task, task ∈ tasks s -> user_id task = uid ->
     completed task = false -> is_Some (fromisoformat (created_at task))) ->
  get_today_tasks env uid s
  = (Ok (List.filter (due_today_spec (dt_date (now env)) uid) (tasks s)), s).
Proof.
  intros Hiso. unfold get_today_tasks.
  rewrite today_loop_filter by exact Hiso. reflexivity.
Qed.

(** C10: if some uncompleted task of the owner has a [created_at] that
    [fromisoformat] rejects, [get_today_tasks] raises [ValueError] and
    returns no list at all. *)
Theorem today_scan_aborts_on_bad_created_at env uid s task :
  task ∈ tasks s ->
  user_id task = uid ->
  completed task = false ->
  fromisoformat (created_at task) = None ->
  get_today_tasks env uid s = (Raise ValueError, s).
Proof.
  intros Hin Hu Hc Hbad. unfold get_today_tasks.
  rewrite today_loop_raises by eauto. reflexivity.
Qed.

(** C8 (as amended): when every write fails, [add_task] and
    [mark_task_done] return as if it had succeeded; the list in memory
    holds the new or the completed task, and the file holds what the failed
    write left. *)
Theorem save_failure_swallowed env s residue :
  (forall l, write env l = WriteFails residue) ->
  (forall text owner prio sd st,
     add_task env text owner prio sd st s
     = (Ok (Z.of_nat (length (tasks s)) + 1),
        mkState
          (tasks s ++
           [new_task env (Z.of_nat (length (tasks s)) + 1) text owner prio sd st])
          residue (outbox s)))
  /\ (forall uid tid k task,
        list_find (is_target uid tid) (tasks s) = Some (k, task) ->
        mark_task_done env uid tid s
        = (Ok true,
           mkState (<[k := mark_done env task]> (tasks s)) residue (outbox s))).
Proof.
  intros Hw. split.
  - intros. rewrite add_task_eq. simpl. rewrite Hw. reflexivity.
  - intros uid tid k task Hf. rewrite mark_task_done_eq, Hf.
    unfold_M. rewrite save_tasks_eq. simpl. rewrite Hw. reflexivity.
Qed.

End Claims.

Section ReminderClaims.

Context `{DatetimeLib}.

Lemma parsed_is_scheduled task ds ts d tm :
  completed task = false ->
  scheduled_date task = Some ds -> scheduled_time task = Some ts ->
  strptime_dmy ds = Some d -> strptime_hm ts = Some tm ->
  is_scheduled task = true.
Proof.
  intros Hc Hsd Hst Hd Ht. unfold is_scheduled. rewrite Hc. simpl.
  rewrite (parse_truthy_dmy (scheduled_date task) d) by (rewrite Hsd; exact Hd).
  rewrite (parse_truthy_hm (scheduled_time task) tm) by (rewrite Hst; exact Ht).
  reflexivity.
Qed.

(** A tick leaves a task that is not due as it is. *)
Lemma tick_not_due env s i task :
  tasks s !! i = Some task ->
  due env task = false ->
  tasks (snd (send_reminders_sync env s)) !! i = Some task
  /\ fired i (snd (send_reminders_sync env s)) = fired i s.
Proof.
  intros Hi Hnd. destruct (tick_is_loop env s) as [refs ->].
  destruct (for_each _ _ s) as [r s'] eqn:E. simpl.
  destruct (loop_at _ _ _ _ _ _ _ Hi E) as [?|(_ & _ & Hd & _)];
    [assumption|congruence].
Qed.

Lemma ticks_not_due i task envs : forall s,
  tasks s !! i = Some task ->
  Forall (fun env => due env task = false) envs ->
  tasks (fst (run (ticks envs) s)) !! i = Some task
  /\ fired i (fst (run (ticks envs) s)) = fired i s.
Proof.
  induction envs as [|env rest IH]; intros s Hi Hall.
  - simpl. auto.
  - apply Forall_cons in Hall as [Hnd Hall].
    unfold ticks. simpl map. rewrite run_cons. simpl.
    destruct (tick_not_due env s i task Hi Hnd) as [Hi1 Hf1].
    destruct (IH _ Hi1 Hall) as [Hi2 Hf2].
    split; [exact Hi2|]. unfold ticks in Hf2. congruence.
Qed.

Lemma reaches_passes env s i :
  reaches env s i ->
  forall j, j ∈ get_scheduled_tasks s -> (j < i)%nat -> passes env s j.
Proof.
  intros Hreach j Hj Hlt.
  apply elem_of_get_scheduled_tasks in Hj as (task & Hj & Hs).
  exists task. split; [exact Hj|]. intros Hd. eapply Hreach; eassumption.
Qed.

(** C1 (as amended): take an uncompleted task whose two schedule fields
    are present and parse, and one tick.  The tick delivers at most one
    reminder for it; it delivers one only if the clock of the tick has
    reached the combined instant, and it delivers one whenever the clock
    has reached it, provided [app_instance] is assigned, the sweep gets as
    far as this task (no earlier scheduled task is due with a send that
    raises something else than [ValueError]) and the send for this task
    succeeds.  If the reminder was delivered, the task is still
    at its place with both schedule fields null and nothing else changed,
    and no later operation delivers a second one.  In every run of
    operations the task gets at most one reminder.  A tick whose clock is
    before the instant, and every sequence of such ticks, leaves the task
    as it is and delivers nothing for it. *)
Theorem reminder_fires_at_most_once env s i task ds ts d tm :
  tasks s !! i = Some task ->
  completed task = false ->
  scheduled_date task = Some ds ->
  scheduled_time task = Some ts ->
  strptime_dmy ds = Some d ->
  strptime_hm ts = Some tm ->
  let instant := combine d tm in
  let s' := snd (send_reminders_sync env s) in
  (fired i s' = fired i s \/ fired i s' = S (fired i s))
  /\ (fired i s' = S (fired i s) -> datetime_geb (now env) instant = true)
  /\ (app_instance env = true ->
      reaches env s i ->
      send env (user_id task) (reminder_message task) = Delivered ->
      datetime_geb (now env) instant = true -> fired i s' = S (fired i s))
  /\ (fired i s' = S (fired i s) ->
      tasks s' !! i = Some (clear_schedule task)
      /\ forall ops, fired i (fst (run ops s')) = fired i s')
  /\ length (tasks s') = length (tasks s)
  /\ (forall ops, (fired i (fst (run ops s)) <= S (fired i s))%nat)
  /\ (datetime_ltb (now env) instant = true ->
      tasks s' !! i = Some task /\ fired i s' = fired i s)
  /\ (forall envs,
        Forall (fun e => datetime_ltb (now e) instant = true) envs ->
        tasks (fst (run (ticks envs) s)) !! i = Some task
        /\ fired i (fst (run (ticks envs) s)) = fired i s).
Proof.
  intros Hi Hc Hsd Hst Hd Ht instant s'.
  pose proof (due_instant_Some _ _ _ _ _ Hsd Hst Hd Ht) as Hinst.
  pose proof (parsed_is_scheduled _ _ _ _ _ Hc Hsd Hst Hd Ht) as Hsched.
  assert (Hdue : forall e, due e task = datetime_geb (now e) instant).
  { intros e. unfold due. rewrite Hinst. reflexivity. }
  subst s'. pose proof (tick_eq env s) as Etick.
  destruct (tick_is_loop env s) as [refs Eloop]. rewrite Eloop in *.
  destruct (for_each refs _ s) as [r s'] eqn:E. simpl.
  pose proof (loop_at _ _ _ _ _ _ _ Hi E) as Hat.
  repeat apply conj.
  - destruct Hat as [[_ ?]|(_ & ? & _)]; auto.
  - intros Hf. destruct Hat as [[_ ?]|(_ & _ & Hdu & _)]; [lia|].
    rewrite <- Hdue. exact Hdu.
  - intros Happ Hreach Hsend Hge. rewrite Happ in Etick. symmetry in Etick.
    eapply (loop_fires env i task (get_scheduled_tasks s)); try exact Etick.
    + apply refs_from_sorted.
    + apply elem_of_get_scheduled_tasks. eauto.
    + exact Hi.
    + rewrite Hdue. exact Hge.
    + exact Hsend.
    + apply reaches_passes, Hreach.
  - intros Hf. destruct Hat as [[_ ?]|(Hi' & _)]; [lia|].
    split; [exact Hi'|]. intros ops.
    destruct (once_run i ops s') as (_ & _ & Hspent & _).
    apply Hspent. exists (clear_schedule task). auto.
  - rewrite <- (length_fmap id (tasks s')), <- (length_fmap id (tasks s)).
    f_equal. eapply loop_ids, E.
  - intros ops. destruct (once_run i ops s) as (_ & Hle & _). exact Hle.
  - intros Hlt. rewrite datetime_ltb_geb in Hlt. apply negb_true_iff in Hlt.
    destruct Hat as [?|(_ & _ & Hdu & _)]; [assumption|].
    rewrite Hdue in Hdu. congruence.
  - intros envs Hall. apply ticks_not_due; [exact Hi|].
    eapply Forall_impl; [exact Hall|]. simpl. intros e Hlt.
    rewrite Hdue. rewrite datetime_ltb_geb in Hlt.
    apply negb_true_iff in Hlt. exact Hlt.
Qed.


End ReminderClaims.

(** ** The properties on concrete task lists *)

Module Checks.

Import Strict Example.

Ltac each_task Hin :=
  vm_compute in Hin;
  repeat (apply elem_of_cons in Hin as [->|Hin]);
  [..|inversion Hin].

(** The strict library on the strings used below. *)
Example strict_dates :
  parse_dmy "20.01.2024" = Some (mkdate 2024 1 20)
  /\ parse_dmy "29.02.2023" = None
  /\ parse_dmy "32.13.2024" = None
  /\ parse_hm "15:00" = Some (mktime 15 0 0 0)
  /\ parse_hm "25:61" = None
  /\ parse_iso "yesterday" = None
  /\ parse_iso (print_iso afternoon) = Some afternoon.
Proof. repeat split. Qed.

Lemma complete_absent_or_foreign_unchanged_witness :
  mark_task_done (env_at evening) 9 1 two_scheduled = (Ok false, two_scheduled)
  /\ mark_task_done (env_at evening) 7 5 two_scheduled = (Ok false, two_scheduled).
Proof.
  split; apply complete_absent_or_foreign_unchanged; intros task Hin;
    each_task Hin; simpl; lia.
Defined.

Lemma complete_twice_true_again_witness :
  let s1 := snd (mark_task_done (env_at afternoon) 7 1 one_scheduled) in
  let s2 := snd (mark_task_done (env_at evening) 7 1 s1) in
  fst (mark_task_done (env_at afternoon) 7 1 one_scheduled) = Ok true
  /\ fst (mark_task_done (env_at evening) 7 1 s1) = Ok true
  /\ completed_at <$> tasks s1 !! 0%nat = Some (Some "2024-01-20T15:00:30")
  /\ completed_at <$> tasks s2 !! 0%nat = Some (Some "2024-01-20T18:00:00").
Proof.
  intros s1 s2.
  destruct (complete_twice_true_again (env_at afternoon) (env_at evening)
              7 1 one_scheduled eq_refl) as [Hagain _].
  split; [reflexivity|]. split; [exact Hagain|]. split; reflexivity.
Defined.

Lemma create_empty_text_accepted :
  ~ create_rejects (env_at noon) "" 7 "средний" None None empty.
Proof. intros [[e He] _]. vm_compute in He. discriminate. Defined.

Lemma save_failure_not_reported :
  ~ save_failure_reported env_broken "call" 7 "средний" None None empty.
Proof. intros [[e He] _]. vm_compute in He. discriminate. Defined.

Lemma save_failure_swallowed_witness :
  fst (add_task env_broken "call" 7 "средний" None None empty) = Ok 1
  /\ length (tasks (snd (add_task env_broken "call" 7 "средний" None None empty)))
     = 1%nat
  /\ file (snd (add_task env_broken "call" 7 "средний" None None empty)) = None.
Proof.
  destruct (save_failure_swallowed env_broken empty None (fun l => eq_refl))
    as [Hadd _].
  rewrite Hadd. repeat split.
Defined.



Lemma due_task_not_reached : ~ fires_iff_due env_down two_scheduled 1.
Proof.
  intros Hiff.
  destruct (Hiff (new_task (env_at noon) 2 "pay" 8 "высокий"
                    (Some "20.01.2024") (Some "14:00"))
              "20.01.2024" "14:00" (mkdate 2024 1 20) (mktime 14 0 0 0)
              eq_refl eq_refl eq_refl eq_refl eq_refl eq_refl)
    as [_ Hfires].
  specialize (Hfires eq_refl). vm_compute in Hfires. discriminate.
Defined.

Lemma reminder_fires_at_most_once_witness :
  fired 0 (snd (send_reminders_sync (env_at afternoon) one_scheduled)) = 1%nat
  /\ scheduled_date
       <$> tasks (snd (send_reminders_sync (env_at afternoon) one_scheduled))
           !! 0%nat
     = Some None
  /\ fired 0 (snd (send_reminders_sync (env_at noon) one_scheduled)) = 0%nat.
Proof.
  destruct (reminder_fires_at_most_once (H := lib)
              (env_at afternoon) one_scheduled 0 _
              "20.01.2024" "15:00" (mkdate 2024 1 20) (mktime 15 0 0 0)
              eq_refl eq_refl eq_refl eq_refl eq_refl eq_refl)
    as (_ & _ & Hfire & Hclear & _).
  destruct (reminder_fires_at_most_once (H := lib)
              (env_at noon) one_scheduled 0 _
              "20.01.2024" "15:00" (mkdate 2024 1 20) (mktime 15 0 0 0)
              eq_refl eq_refl eq_refl eq_refl eq_refl eq_refl)
    as (_ & _ & _ & _ & _ & _ & Hfuture & _).
  assert (Hreach : reaches (env_at afternoon) one_scheduled 0)
    by (intros j other Hlt; lia).
  specialize (Hfire eq_refl Hreach eq_refl eq_refl).
  destruct (Hclear Hfire) as [Hcleared _].
  destruct (Hfuture eq_refl) as [_ Hnone].
  split; [exact Hfire|]. split; [|exact Hnone].
  rewrite Hcleared. reflexivity.
Defined.

Lemma today_tasks_exact_witness :
  get_today_tasks (env_at noon) 7 mixed
  = (Ok [mkTask 1 "a" 7 "средний" false "2024-01-20T09:00:00" None None None;
         mkTask 2 "b" 7 "средний" false "2024-01-19T09:00:00" None
           (Some "20.01.2024") (Some "15:00")],
     mixed).
Proof.
  rewrite today_tasks_exact; [reflexivity|].
  intros task Hin _ _. each_task Hin; vm_compute; eauto.
Defined.

Lemma today_scan_aborts_on_bad_created_at_witness :
  get_today_tasks (env_at noon) 7 hand_edited = (Raise ValueError, hand_edited).
Proof.
  apply (today_scan_aborts_on_bad_created_at (env_at noon) 7 hand_edited
           (mkTask 2 "pay" 7 "высокий" false "yesterday" None None None)).
  - apply list_elem_of_lookup_2 with 1%nat. reflexivity.
  - reflexivity.
  - reflexivity.
  - reflexivity.
Defined.

End Checks.

(** ** More about the task manager: the file, the lists, the invariants *)

Lemma filter_sublist (p : Task -> bool) (l : list Task) :
  List.filter p l `sublist_of` l.
Proof.
  induction l as [|x l IH]; simpl; [constructor|].
  destruct (p x); [apply sublist_skip|apply sublist_cons]; exact IH.
Qed.

Lemma filter_split_length (p q : Task -> bool) (l : list Task) :
  length (List.filter p l)
  = (length (List.filter (fun x => p x && q x) l)
     + length (List.filter (fun x => p x && negb (q x)) l))%nat.
Proof.
  induction l as [|x l IH]; simpl; [reflexivity|].
  destruct (p x), (q x); simpl; lia.
Qed.

(** Replacing one element changes the length of a filtered list by what
    the old and the new element contribute. *)
Lemma filter_insert_length (p : Task -> bool) (l : list Task) : forall k t t',
  l !! k = Some t ->
  (length (List.filter p (<[k := t']> l)) + (if p t then 1 else 0)
   = length (List.filter p l) + (if p t' then 1 else 0))%nat.
Proof.
  induction l as [|x l IH]; intros k t t' Hk; [discriminate|].
  destruct k as [|k]; simpl in *.
  - injection Hk as ->. destruct (p t), (p t'); simpl; lia.
  - specialize (IH k t t' Hk). destruct (p x); simpl; lia.
Qed.

Lemma filter_insert_same (p : Task -> bool) (l : list Task) : forall k t t',
  l !! k = Some t -> p t = false -> p t' = false ->
  List.filter p (<[k := t']> l) = List.filter p l.
Proof.
  induction l as [|x l IH]; intros k t t' Hk Ht Ht'; [reflexivity|].
  destruct k as [|k]; simpl in *.
  - injection Hk as ->. rewrite Ht, Ht'. reflexivity.
  - rewrite (IH k t t' Hk Ht Ht'). reflexivity.
Qed.

Section Persistence.

Context `{DatetimeLib}.

Lemma synced_add_task env text uid prio sd st s :
  writes env -> synced (snd (add_task env text uid prio sd st s)).
Proof.
  intros Hw. rewrite add_task_eq. unfold synced. simpl. rewrite Hw.
  reflexivity.
Qed.

Lemma synced_mark_task_done env uid tid s :
  writes env -> synced s -> synced (snd (mark_task_done env uid tid s)).
Proof.
  intros Hw Hs. rewrite mark_task_done_eq.
  destruct (list_find _ _) as [[k t]|]; [|exact Hs].
  unfold_M. rewrite save_tasks_eq. unfold synced. simpl. rewrite Hw.
  reflexivity.
Qed.

Lemma synced_remind env j s r s' :
  writes env -> synced s -> remind env j s = (r, s') -> synced s'.
Proof.
  intros Hw Hs. rewrite remind_eq.
  destruct (tasks s !! j) as [task|]; [|intros [= _ <-]; exact Hs].
  destruct (due env task); [|intros [= _ <-]; exact Hs].
  destruct (send env _ _) as [|[|]]; try (intros [= _ <-]; exact Hs).
  intros [= _ <-]. unfold fire. rewrite save_tasks_eq. unfold synced. simpl.
  rewrite Hw. reflexivity.
Qed.

Lemma synced_loop env refs : forall s r s',
  writes env -> synced s -> for_each refs (remind env) s = (r, s') -> synced s'.
Proof.
  induction refs as [|j rest IH]; intros s r s' Hw Hs.
  - intros [= _ <-]. exact Hs.
  - rewrite for_each_cons.
    destruct (remind env j s) as [[[]|e] s1] eqn:Hstep.
    + intros Hrest. eapply IH; [exact Hw| |exact Hrest].
      eapply synced_remind; eassumption.
    + intros [= _ <-]. eapply synced_remind; eassumption.
Qed.

Lemma synced_run_op env op s :
  writes env -> synced s -> synced (fst (run_op env op s)).
Proof.
  intros Hw Hs. destruct op as [text owner prio sd st|owner tid|]; simpl.
  - pose proof (synced_add_task env text owner prio sd st s Hw) as Ha.
    destruct (add_task _ _ _ _ _ _ s) as [[task_id|e] s']; exact Ha.
  - apply synced_mark_task_done; assumption.
  - destruct (tick_is_loop env s) as [refs ->].
    destruct (for_each _ _ s) as [r s'] eqn:E. simpl.
    eapply synced_loop; eassumption.
Qed.

Lemma synced_run ops : forall s,
  Forall (fun p => writes (fst p)) ops -> synced s -> synced (fst (run ops s)).
Proof.
  induction ops as [|[env op] rest IH]; intros s Hall Hs; [exact Hs|].
  apply Forall_cons in Hall as [Hw Hall].
  rewrite run_cons. simpl. apply IH; [exact Hall|].
  apply synced_run_op; assumption.
Qed.

(** X1: start the bot on any file, run any creations, completions and
    ticks whose writes all succeed, and stop it: a restart loads exactly
    the list that was in memory. *)
Theorem restart_loads_memory f ops :
  Forall (fun p => writes (fst p)) ops ->
  tasks (init (file (fst (run ops (init f))))) = tasks (fst (run ops (init f))).
Proof.
  intros Hall. apply (synced_run ops (init f) Hall). reflexivity.
Qed.

(** X2: [get_user_tasks] returns tasks of the list only, in the order of
    the list, all of the owner asked for and, with a filter, all of the
    status asked for; the completed and the uncompleted tasks of an owner
    together are all the owner's tasks. *)
Theorem user_tasks_partition uid s :
  (forall task, task ∈ get_user_tasks uid None s
     <-> task ∈ tasks s /\ user_id task = uid)
  /\ (forall c task, task ∈ get_user_tasks uid (Some c) s
        <-> task ∈ tasks s /\ user_id task = uid /\ completed task = c)
  /\ (forall c, get_user_tasks uid c s `sublist_of` tasks s)
  /\ length (get_user_tasks uid None s)
     = (length (get_user_tasks uid (Some true) s)
        + length (get_user_tasks uid (Some false) s))%nat.
Proof.
  unfold get_user_tasks. repeat apply conj.
  - intros task. rewrite !list_elem_of_In, filter_In, Z.eqb_eq. reflexivity.
  - intros c task. rewrite !list_elem_of_In, filter_In, andb_true_iff.
    rewrite Z.eqb_eq, eqb_true_iff. reflexivity.
  - intros [c|]; apply filter_sublist.
  - rewrite (filter_split_length _ completed).
    f_equal; f_equal; apply filter_ext; intros task;
      destruct (completed task); reflexivity.
Qed.

(** X3: [mark_task_done] either finds no task with the id and the owner,
    returns [False] and changes nothing, or returns [True] and rewrites
    exactly one task: the first one in the list with that id and owner.
    No other task, no reminder and no task of another owner is touched, and
    the rewritten task keeps its id, text, owner, priority, creation time
    and schedule. *)
Theorem mark_task_done_first_match env uid tid s :
  let r := fst (mark_task_done env uid tid s) in
  let s' := snd (mark_task_done env uid tid s) in
  (r = Ok false /\ s' = s
   /\ forall task, task ∈ tasks s -> ~ (id task = tid /\ user_id task = uid))
  \/ (exists k task,
        r = Ok true
        /\ tasks s !! k = Some task
        /\ id task = tid /\ user_id task = uid
        /\ (forall j other, (j < k)%nat -> tasks s !! j = Some other ->
              ~ (id other = tid /\ user_id other = uid))
        /\ tasks s' = <[k := mark_done env task]> (tasks s)
        /\ outbox s' = outbox s
        /\ completed (mark_done env task) = true
        /\ completed_at (mark_done env task) = Some (isoformat (now env))
        /\ (id (mark_done env task), text (mark_done env task),
            user_id (mark_done env task), priority (mark_done env task),
            created_at (mark_done env task),
            scheduled_date (mark_done env task),
            scheduled_time (mark_done env task))
           = (id task, text task, user_id task, priority task,
              created_at task, scheduled_date task, scheduled_time task)).
Proof.
  intros r s'. subst r s'.
  rewrite mark_task_done_result, mark_task_done_outbox, mark_task_done_tasks.
  destruct (list_find (is_target uid tid) (tasks s)) as [[k task]|] eqn:Hf.
  - right. exists k, task.
    apply list_find_Some in Hf as (Hk & [Hid Hu] & Hfirst).
    rewrite bool_decide_eq_true_2 by eauto.
    repeat split; auto.
    intros j other Hlt Hj. exact (Hfirst j other Hj Hlt).
  - left. rewrite bool_decide_eq_false_2 by (intros [x Hx]; discriminate).
    split; [reflexivity|]. split.
    + rewrite mark_task_done_eq, Hf. reflexivity.
    + intros task Hin. apply list_find_None in Hf.
      rewrite Forall_forall in Hf. exact (Hf task Hin).
Qed.

(** X4: a completion that succeeds leaves the lists of every other owner
    as they were and the owner's list as long as it was.  If the task was
    uncompleted, the owner has one reminder candidate less and one
    completed task more; if it was completed already, the owner's list of
    uncompleted tasks is the same as before. *)
Theorem complete_moves_one_task env uid tid s k task :
  list_find (is_target uid tid) (tasks s) = Some (k, task) ->
  let s' := snd (mark_task_done env uid tid s) in
  (forall other c, other <> uid ->
     get_user_tasks other c s' = get_user_tasks other c s)
  /\ length (get_user_tasks uid None s') = length (get_user_tasks uid None s)
  /\ (completed task = false ->
      (length (get_user_tasks uid (Some false) s') + 1
       = length (get_user_tasks uid (Some false) s))%nat
      /\ length (get_user_tasks uid (Some true) s')
         = (length (get_user_tasks uid (Some true) s) + 1)%nat)
  /\ (completed task = true ->
      get_user_tasks uid (Some false) s' = get_user_tasks uid (Some false) s).
Proof.
  intros Hf s'. subst s'. unfold get_user_tasks.
  rewrite mark_task_done_tasks, Hf.
  apply list_find_Some in Hf as (Hk & [Hid Hu] & _).
  repeat apply conj.
  - intros other c Hne.
    assert (Hno : Z.eqb (user_id task) other = false).
    { apply Z.eqb_neq. congruence. }
    destruct c as [c|]; apply (filter_insert_same _ _ k task); auto; simpl;
      rewrite Hno; reflexivity.
  - pose proof (filter_insert_length (fun t => Z.eqb (user_id t) uid)
                  (tasks s) k task (mark_done env task) Hk) as E.
    simpl in E. destruct (Z.eqb (user_id task) uid); lia.
  - intros Hc. split.
    + pose proof (filter_insert_length
                    (fun t => Z.eqb (user_id t) uid && Bool.eqb (completed t) false)
                    (tasks s) k task (mark_done env task) Hk) as E.
      simpl in E. rewrite Hc, Hu, Z.eqb_refl in E. simpl in E. lia.
    + pose proof (filter_insert_length
                    (fun t => Z.eqb (user_id t) uid && Bool.eqb (completed t) true)
                    (tasks s) k task (mark_done env task) Hk) as E.
      simpl in E. rewrite Hc, Hu, Z.eqb_refl in E. simpl in E. lia.
  - intros Hc. apply (filter_insert_same _ _ k task); auto; simpl.
    + rewrite Hc. apply andb_false_r.
    + apply andb_false_r.
Qed.

End Persistence.

(** ** Invariants of the list over runs *)

Section Invariants.

Context `{DatetimeLib}.

Lemma tick_length env s :
  length (tasks (snd (send_reminders_sync env s))) = length (tasks s).
Proof.
  rewrite <- (length_fmap id (tasks (snd _))), tick_ids.
  apply length_fmap.
Qed.

(** After a tick every task is the one that was at its place, with its
    schedule either kept or cleared. *)
Lemma tick_shape env s i task' :
  tasks (snd (send_reminders_sync env s)) !! i = Some task' ->
  exists task, tasks s !! i = Some task
    /\ (task' = task \/ task' = clear_schedule task).
Proof.
  intros Hi'.
  assert (Hlt : (i < length (tasks s))%nat).
  { rewrite <- (tick_length env s). eapply lookup_lt_Some, Hi'. }
  destruct (lookup_lt_is_Some_2 _ _ Hlt) as [task Hi].
  exists task. split; [exact Hi|].
  destruct (tick_is_loop env s) as [refs E]. rewrite E in Hi'.
  destruct (for_each refs _ s) as [r s'] eqn:El. simpl in Hi'.
  destruct (loop_at _ _ _ _ _ _ _ Hi El) as [[Hs _]|(Hs & _)];
    rewrite Hs in Hi'; injection Hi' as <-; auto.
Qed.

Lemma Forall_tick (P : Task -> Prop) env s :
  (forall task, P task -> P (clear_schedule task)) ->
  Forall P (tasks s) -> Forall P (tasks (snd (send_reminders_sync env s))).
Proof.
  intros Hclear Hall. apply Forall_lookup. intros i task' Hi'.
  destruct (tick_shape _ _ _ _ Hi') as (task & Hi & [->| ->]).
  - eapply Forall_lookup_1; eassumption.
  - apply Hclear. eapply Forall_lookup_1; eassumption.
Qed.

Lemma Forall_mark_task_done (P : Task -> Prop) env uid tid s :
  (forall task, P task -> P (mark_done env task)) ->
  Forall P (tasks s) -> Forall P (tasks (snd (mark_task_done env uid tid s))).
Proof.
  intros Hmark Hall. rewrite mark_task_done_tasks.
  destruct (list_find _ _) as [[k task]|] eqn:Hf; [|exact Hall].
  apply list_find_Some in Hf as (Hk & _).
  apply Forall_insert; [exact Hall|].
  apply Hmark. eapply Forall_lookup_1; eassumption.
Qed.

Lemma Forall_add_task (P : Task -> Prop) env text uid prio sd st s :
  P (new_task env (Z.of_nat (length (tasks s)) + 1) text uid prio sd st) ->
  Forall P (tasks s) ->
  Forall P (tasks (snd (add_task env text uid prio sd st s))).
Proof.
  intros Hnew Hall. rewrite add_task_eq. simpl.
  apply Forall_app. split; [exact Hall|]. constructor; [exact Hnew|constructor].
Qed.

Lemma numbered_ids (l l' : list Task) :
  id <$> l' = id <$> l -> numbered l -> numbered l'.
Proof.
  intros E Hn k task Hk.
  assert (Hid : (id <$> l) !! k = Some (id task)).
  { rewrite <- E, list_lookup_fmap, Hk. reflexivity. }
  rewrite list_lookup_fmap in Hid.
  destruct (l !! k) as [t|] eqn:Hl; [|discriminate].
  injection Hid as <-. exact (Hn k t Hl).
Qed.

Lemma numbered_run_op env op s :
  numbered (tasks s) -> numbered (tasks (fst (run_op env op s))).
Proof.
  intros Hn. destruct op as [text owner prio sd st|owner tid|]; simpl.
  - rewrite add_task_eq. simpl. intros k task Hk.
    apply lookup_app_Some in Hk as [Hk|[Hge Hk]]; [exact (Hn k task Hk)|].
    apply list_lookup_singleton_Some in Hk as [Hz <-]. simpl. lia.
  - eapply numbered_ids; [|exact Hn].
    destruct (run_op_ids env (Complete owner tid) s) as [E _].
    simpl in E. rewrite app_nil_r in E. exact E.
  - eapply numbered_ids; [apply tick_ids|exact Hn].
Qed.

Lemma completion_consistent_run_op env op s :
  Forall completion_consistent (tasks s) ->
  Forall completion_consistent (tasks (fst (run_op env op s))).
Proof.
  intros Hall. destruct op as [text owner prio sd st|owner tid|]; simpl.
  - pose proof (Forall_add_task completion_consistent env text owner prio
                  sd st s) as Ha.
    destruct (add_task _ _ _ _ _ _ s) as [[task_id|e] s']; apply Ha; auto;
      (split; [discriminate|intros [x Hx]; discriminate]).
  - apply Forall_mark_task_done; [|exact Hall].
    intros task _. split; [eauto|reflexivity].
  - apply Forall_tick; [|exact Hall]. intros task Hc. exact Hc.
Qed.

(** X5: if [completed] and [completed_at] agree on every task (completed
    exactly when a completion time is stored), they agree on every task
    after any run of creations, completions and ticks; so they agree in
    every list the bot builds from the empty one. *)
Theorem completion_consistent_run ops s :
  Forall completion_consistent (tasks s) ->
  Forall completion_consistent (tasks (fst (run ops s))).
Proof.
  revert s. induction ops as [|[env op] rest IH]; intros s Hall; [exact Hall|].
  rewrite run_cons. simpl. apply IH, completion_consistent_run_op, Hall.
Qed.

(** X6: if the task at every position [k] carries the id [k + 1] (as in
    the empty list), it does so after any run of creations, completions
    and ticks, and then no two tasks of the list share an id. *)
Theorem numbered_run ops s :
  numbered (tasks s) ->
  numbered (tasks (fst (run ops s)))
  /\ NoDup (id <$> tasks (fst (run ops s))).
Proof.
  intros Hn.
  assert (Hn' : numbered (tasks (fst (run ops s)))).
  { revert s Hn. induction ops as [|[env op] rest IH]; intros s Hn;
      [exact Hn|].
    rewrite run_cons. simpl. apply IH, numbered_run_op, Hn. }
  split; [exact Hn'|].
  apply NoDup_alt. intros i j x Hi Hj.
  rewrite list_lookup_fmap in Hi, Hj.
  destruct (tasks (fst (run ops s)) !! i) as [ti|] eqn:Ei; [|discriminate].
  destruct (tasks (fst (run ops s)) !! j) as [tj|] eqn:Ej; [|discriminate].
  injection Hi as <-. injection Hj as Hj.
  rewrite (Hn' i ti Ei), (Hn' j tj Ej) in Hj. lia.
Qed.

(** X7: in a list numbered from 1, [mark_task_done] with id [tid] returns
    [True] exactly when [tid] is at least 1, the list has a task at
    position [tid - 1] and that task belongs to the owner; it is that task
    that is rewritten. *)
Theorem mark_task_done_numbered env uid tid s :
  numbered (tasks s) ->
  (fst (mark_task_done env uid tid s) = Ok true
   <-> 1 <= tid /\ exists task,
         tasks s !! Z.to_nat (tid - 1) = Some task /\ user_id task = uid)
  /\ (forall task,
        1 <= tid ->
        tasks s !! Z.to_nat (tid - 1) = Some task -> user_id task = uid ->
        tasks (snd (mark_task_done env uid tid s))
        = <[Z.to_nat (tid - 1) := mark_done env task]> (tasks s)).
Proof.
  intros Hn.
  assert (Hpos : forall k task,
            list_find (is_target uid tid) (tasks s) = Some (k, task) ->
            1 <= tid /\ k = Z.to_nat (tid - 1)).
  { intros k task Hf. apply list_find_Some in Hf as (Hk & [Hid _] & _).
    specialize (Hn k task Hk). lia. }
  assert (Hfound : forall task,
            1 <= tid ->
            tasks s !! Z.to_nat (tid - 1) = Some task -> user_id task = uid ->
            list_find (is_target uid tid) (tasks s)
            = Some (Z.to_nat (tid - 1), task)).
  { intros task Hle Hk Hu. apply list_find_Some. split; [exact Hk|]. split.
    - split; [|exact Hu]. specialize (Hn _ _ Hk). lia.
    - intros j other Hj Hlt [Hid _]. specialize (Hn _ _ Hj). lia. }
  split.
  - rewrite mark_task_done_result. split.
    + intros [= Hb]. apply bool_decide_eq_true_1 in Hb as [[k task] Hf].
      destruct (Hpos k task Hf) as [Hle ->]. split; [exact Hle|].
      apply list_find_Some in Hf as (Hk & [_ Hu] & _). eauto.
    + intros (Hle & task & Hk & Hu).
      rewrite (Hfound task Hle Hk Hu).
      rewrite bool_decide_eq_true_2 by eauto. reflexivity.
  - intros task Hle Hk Hu.
    rewrite mark_task_done_tasks, (Hfound task Hle Hk Hu). reflexivity.
Qed.

End Invariants.

(** ** More about the sweep *)

Lemma lex_compare_ge_trans (a : list Z) : forall b c,
  lex_compare a b <> Lt -> lex_compare b c <> Lt -> lex_compare a c <> Lt.
Proof.
  induction a as [|x a IH]; intros [|y b] [|z c]; simpl; try congruence.
  destruct (Z.compare_spec x y), (Z.compare_spec y z), (Z.compare_spec x z);
    try congruence; try lia.
  apply IH.
Qed.

Lemma datetime_geb_trans (a b c : datetime) :
  datetime_geb a b = true -> datetime_geb b c = true -> datetime_geb a c = true.
Proof.
  unfold datetime_geb. intros Hab Hbc.
  pose proof (lex_compare_ge_trans (datetime_fields a) (datetime_fields b)
                (datetime_fields c)) as Ht.
  destruct (lex_compare (datetime_fields a) (datetime_fields b));
    destruct (lex_compare (datetime_fields b) (datetime_fields c));
    destruct (lex_compare (datetime_fields a) (datetime_fields c));
    try reflexivity; try discriminate; exfalso; apply Ht; congruence.
Qed.

Section SweepMore.

Context `{DatetimeLib}.

Lemma loop_idle env refs s :
  (forall j, j ∈ refs ->
     exists task, tasks s !! j = Some task /\ due env task = false) ->
  for_each refs (remind env) s = (Ok tt, s).
Proof.
  induction refs as [|j rest IH]; intros Hidle; [reflexivity|].
  rewrite for_each_cons, remind_eq.
  destruct (Hidle j) as (task & Hj & Hd); [left|].
  rewrite Hj, Hd. apply IH. intros k Hk. apply Hidle. right. exact Hk.
Qed.

Lemma loop_ok env refs : forall s,
  (forall j, j ∈ refs -> passes env s j) ->
  fst (for_each refs (remind env) s) = Ok tt.
Proof.
  induction refs as [|j rest IH]; intros s Hpass; [reflexivity|].
  rewrite for_each_cons.
  destruct (remind_passes env s j) as [s1 Hstep]; [apply Hpass; left|].
  rewrite Hstep. apply IH. intros k Hk.
  eapply remind_keeps_passes; [exact Hstep|]. apply Hpass. right. exact Hk.
Qed.

Lemma loop_not_in env i refs : forall s r s',
  i ∉ refs ->
  for_each refs (remind env) s = (r, s') ->
  tasks s' !! i = tasks s !! i /\ fired i s' = fired i s.
Proof.
  induction refs as [|j rest IH]; intros s r s' Hnot.
  - intros [= _ <-]. auto.
  - apply not_elem_of_cons in Hnot as [Hne Hnot].
    rewrite for_each_cons.
    destruct (remind env j s) as [[[]|e] s1] eqn:Hstep.
    + intros Hrest.
      destruct (remind_other env j i s (Ok tt) s1) as [E1 E2];
        [congruence|exact Hstep|].
      destruct (IH _ _ _ Hnot Hrest) as [E3 E4]. split; congruence.
    + intros [= _ <-]. eapply remind_other; [|exact Hstep]. congruence.
Qed.

(** What the loop hands to the notifier and gets delivered. *)
Lemma loop_outbox env refs : forall s r s',
  for_each refs (remind env) s = (r, s') ->
  exists new,
    outbox s' = outbox s ++ new
    /\ Forall (fun m =>
         sent_ref m ∈ refs
         /\ exists task,
              tasks s !! sent_ref m = Some task
              /\ due env task = true
              /\ sent_chat m = user_id task
              /\ sent_text m = reminder_message task) new.
Proof.
  induction refs as [|j rest IH]; intros s r s'.
  - intros [= _ <-]. exists []. rewrite app_nil_r. auto.
  - rewrite for_each_cons, remind_eq.
    assert (Hsame : forall r',
              for_each rest (remind env) s = (r', s') ->
              exists new,
                outbox s' = outbox s ++ new
                /\ Forall (fun m =>
                     sent_ref m ∈ j :: rest
                     /\ exists task,
                          tasks s !! sent_ref m = Some task
                          /\ due env task = true
                          /\ sent_chat m = user_id task
                          /\ sent_text m = reminder_message task) new).
    { intros r' Hrest. destruct (IH _ _ _ Hrest) as (new & Eo & Hall).
      exists new. split; [exact Eo|].
      eapply Forall_impl; [exact Hall|]. simpl.
      intros m [Hin Hm]. split; [right; exact Hin|exact Hm]. }
    assert (Hstop : forall e : exn,
              (Raise e, s) = (r, s') ->
              exists new,
                outbox s' = outbox s ++ new
                /\ Forall (fun m =>
                     sent_ref m ∈ j :: rest
                     /\ exists task,
                          tasks s !! sent_ref m = Some task
                          /\ due env task = true
                          /\ sent_chat m = user_id task
                          /\ sent_text m = reminder_message task) new).
    { intros e [= _ <-]. exists []. rewrite app_nil_r. auto. }
    destruct (tasks s !! j) as [tj|] eqn:Hj; [|apply Hstop].
    destruct (due env tj) eqn:Hdj; [|apply Hsame].
    destruct (send env _ _) as [|[|]]; [|apply Hsame|apply Hstop].
    intros Hrest. destruct (IH _ _ _ Hrest) as (new & Eo & Hall).
    exists (mkSent j (user_id tj) (reminder_message tj) :: new). split.
    + rewrite Eo, fire_outbox, <- app_assoc. reflexivity.
    + constructor.
      * simpl. split; [left|]. exists tj. auto.
      * eapply Forall_impl; [exact Hall|]. simpl.
        intros m (Hin & task & Hm & Hd & Hrest').
        split; [right; exact Hin|]. exists task. split; [|auto].
        rewrite fire_tasks in Hm.
        destruct (decide (j = sent_ref m)) as [E|Hne].
        -- rewrite <- E in Hm.
           rewrite list_lookup_insert_eq in Hm by (eapply lookup_lt_Some, Hj).
           injection Hm as <-. rewrite due_clear_schedule in Hd. discriminate.
        -- rewrite list_lookup_insert_ne in Hm by exact Hne. exact Hm.
Qed.

(** X8: a tick that finds no scheduled task due is a no-op: it returns
    normally and leaves the list, the file (nothing is written) and the
    delivered reminders as they were.  This covers the empty list and a
    list whose scheduled tasks all lie in the future or do not parse. *)
Theorem tick_nothing_due env s :
  (forall i task, tasks s !! i = Some task -> is_scheduled task = true ->
     due env task = false) ->
  send_reminders_sync env s = (Ok tt, s).
Proof.
  intros Hidle. rewrite tick_eq. destruct (app_instance env); [|reflexivity].
  apply loop_idle. intros j Hj.
  apply elem_of_get_scheduled_tasks in Hj as (task & Hj & Hs). eauto.
Qed.

(** X9: when [app_instance] is assigned and the notifier delivers what it
    is given, a tick returns normally and leaves no scheduled task that is
    due at its clock; a second tick at the same clock does nothing. *)
Theorem tick_delivers_all_due env s :
  app_instance env = true ->
  (forall chat message, send env chat message = Delivered) ->
  let s' := snd (send_reminders_sync env s) in
  fst (send_reminders_sync env s) = Ok tt
  /\ (forall i task, tasks s' !! i = Some task -> is_scheduled task = true ->
        due env task = false)
  /\ send_reminders_sync env s' = (Ok tt, s').
Proof.
  intros Happ Hrel s'.
  assert (Hpass : forall j, j ∈ get_scheduled_tasks s -> passes env s j).
  { intros j Hj. apply elem_of_get_scheduled_tasks in Hj as (tj & Hj & _).
    exists tj. split; [exact Hj|]. rewrite Hrel. discriminate. }
  assert (Hleft : forall i task, tasks s' !! i = Some task ->
            is_scheduled task = true -> due env task = false).
  { intros i task' Hi' Hs'. subst s'.
    destruct (tick_shape _ _ _ _ Hi') as (task & Hi & [->| ->]).
    2: { unfold is_scheduled in Hs'. simpl in Hs'.
         rewrite andb_false_r in Hs'. discriminate. }
    destruct (due env task) eqn:Hd; [|reflexivity]. exfalso.
    rewrite tick_eq, Happ in Hi'.
    destruct (for_each _ _ s) as [r s1] eqn:E. simpl in Hi'.
    assert (Hf : fired i s1 = S (fired i s)).
    { apply (loop_fires env i task (get_scheduled_tasks s) s r s1).
      - apply refs_from_sorted.
      - apply elem_of_get_scheduled_tasks. eauto.
      - exact Hi.
      - exact Hd.
      - apply Hrel.
      - intros j Hj _. apply Hpass, Hj.
      - exact E. }
    destruct (loop_at _ _ _ _ _ _ _ Hi E) as [[_ Hf']|(Hc & _)]; [lia|].
    rewrite Hc in Hi'. injection Hi' as Ec. rewrite <- Ec in Hs'.
    unfold is_scheduled in Hs'. simpl in Hs'.
    rewrite andb_false_r in Hs'. discriminate. }
  split; [|split].
  - rewrite tick_eq, Happ. apply loop_ok, Hpass.
  - exact Hleft.
  - apply tick_nothing_due, Hleft.
Qed.

(** X10: a tick changes nothing but schedules.  It keeps the length of the
    list, and every task is afterwards either exactly as before, with no
    reminder delivered for it, or has had one reminder delivered and its
    two schedule fields set to null, all other fields kept; the second
    happens only to an uncompleted task with both fields present that is
    due and whose send succeeded.  A completed task and a task lacking a
    date or a time are never changed and never get a reminder. *)
Theorem tick_frame env s i task :
  tasks s !! i = Some task ->
  let s' := snd (send_reminders_sync env s) in
  length (tasks s') = length (tasks s)
  /\ ((tasks s' !! i = Some task /\ fired i s' = fired i s)
      \/ (tasks s' !! i = Some (clear_schedule task)
          /\ fired i s' = S (fired i s)
          /\ app_instance env = true
          /\ is_scheduled task = true
          /\ due env task = true
          /\ send env (user_id task) (reminder_message task) = Delivered))
  /\ (is_scheduled task = false ->
      tasks s' !! i = Some task /\ fired i s' = fired i s).
Proof.
  intros Hi s'. subst s'. split; [apply tick_length|].
  rewrite tick_eq. destruct (app_instance env); [|simpl; auto].
  destruct (for_each _ _ s) as [r s'] eqn:E. simpl.
  destruct (is_scheduled task) eqn:Hs.
  - split; [|discriminate].
    destruct (loop_at _ _ _ _ _ _ _ Hi E) as [?|(? & ? & ? & ?)]; auto 10.
  - assert (Hnot : i ∉ get_scheduled_tasks s).
    { rewrite elem_of_get_scheduled_tasks. intros (t & Ht & Hst). congruence. }
    destruct (loop_not_in _ _ _ _ _ _ Hnot E) as [E1 E2].
    rewrite Hi in E1. auto.
Qed.

(** X11: the reminders a tick delivers are appended to those delivered
    before; each one goes to the owner of a task of the list that was
    uncompleted, scheduled and due when the tick began, and carries the
    text rendered from that task. *)
Theorem tick_reminders_addressed env s :
  exists new,
    outbox (snd (send_reminders_sync env s)) = outbox s ++ new
    /\ Forall (fun m =>
         exists task,
           tasks s !! sent_ref m = Some task
           /\ is_scheduled task = true
           /\ due env task = true
           /\ sent_chat m = user_id task
           /\ sent_text m = reminder_message task) new.
Proof.
  rewrite tick_eq. destruct (app_instance env).
  - destruct (for_each _ _ s) as [r s'] eqn:E. simpl.
    destruct (loop_outbox _ _ _ _ _ E) as (new & Eo & Hall).
    exists new. split; [exact Eo|].
    eapply Forall_impl; [exact Hall|]. simpl.
    intros m (Hin & task & Hm & Hd & Hc & Ht).
    apply elem_of_get_scheduled_tasks in Hin as (task' & Hm' & Hs).
    exists task. assert (task' = task) as -> by congruence. auto.
  - exists []. simpl. rewrite app_nil_r. auto.
Qed.

(** X12: a task that is due at one clock is due at every later clock: the
    comparison of the sweep never turns a due task back into a future one,
    so a task whose reminder was not delivered is due again at the next
    tick. *)
Theorem due_stays_due env env' task :
  datetime_le (now env) (now env') ->
  due env task = true ->
  due env' task = true.
Proof.
  unfold datetime_le, due. intros Hle.
  destruct (due_instant task) as [instant|]; [|discriminate].
  intros Hd. eapply datetime_geb_trans; eassumption.
Qed.

End SweepMore.

(** ** The command handlers *)

Lemma string_app_assoc (a b c : string) : (a +:+ b) +:+ c = a +:+ b +:+ c.
Proof.
  induction a as [|x a IH]; [reflexivity|].
  change (String x ((a +:+ b) +:+ c) = String x (a +:+ b +:+ c)).
  f_equal. exact IH.
Qed.

Lemma join_snoc (sep : string) (l : list string) (x : string) :
  l <> [] -> join sep (l ++ [x]) = join sep l +:+ sep +:+ x.
Proof.
  induction l as [|y l IH]; intros Hne; [congruence|].
  destruct l as [|z l]; [reflexivity|].
  change (join sep ((y :: z :: l) ++ [x]))
    with (y +:+ sep +:+ join sep ((z :: l) ++ [x])).
  rewrite IH by discriminate.
  change (join sep (y :: z :: l)) with (y +:+ sep +:+ join sep (z :: l)).
  rewrite !string_app_assoc. reflexivity.
Qed.

Lemma rsplit_space_none (s : string) :
  has_space s = false -> rsplit_space s = None.
Proof.
  induction s as [|c s IH]; [reflexivity|].
  cbn [has_space rsplit_space].
  intros Hs. apply orb_false_iff in Hs as [Hc Hs].
  rewrite (IH Hs), Hc. reflexivity.
Qed.

(** The last space of a text is where [rsplit] cuts. *)
Lemma rsplit_space_app (a b : string) :
  has_space b = false -> rsplit_space (a +:+ " " +:+ b) = Some (a, b).
Proof.
  intros Hb. induction a as [|c a IH].
  - change (rsplit_space (String " " b) = Some ("", b)).
    cbn [rsplit_space]. rewrite (rsplit_space_none b Hb). reflexivity.
  - change (rsplit_space (String c (a +:+ " " +:+ b)) = Some (String c a, b)).
    cbn [rsplit_space]. rewrite IH. reflexivity.
Qed.

Lemma rsplit2_three (a d t : string) :
  has_space d = false -> has_space t = false ->
  rsplit2 (a +:+ " " +:+ d +:+ " " +:+ t) = [a; d; t].
Proof.
  intros Hd Ht. unfold rsplit2.
  replace (a +:+ " " +:+ d +:+ " " +:+ t) with ((a +:+ " " +:+ d) +:+ " " +:+ t)
    by (rewrite !string_app_assoc; reflexivity).
  rewrite (rsplit_space_app _ t Ht), (rsplit_space_app a d Hd). reflexivity.
Qed.

Lemma last_word_snoc (l : list string) (x : string) : last_word (l ++ [x]) = x.
Proof. unfold last_word. rewrite last_snoc. reflexivity. Qed.

Section HandlerFacts.

Context `{DatetimeLib} `{StrLib}.

Lemma add_then_reply env text uid prio sd st (reply : Z -> string) s :
  (task_id ← add_task env text uid prio sd st; mret (reply task_id)) s
  = (Ok (reply (Z.of_nat (length (tasks s)) + 1)),
     snd (add_task env text uid prio sd st s)).
Proof.
  unfold mbind at 1. unfold M_bind at 1.
  rewrite add_task_eq. reflexivity.
Qed.

Lemma add_task_tasks env text uid prio sd st s :
  tasks (snd (add_task env text uid prio sd st s))
  = tasks s ++ [new_task env (Z.of_nat (length (tasks s)) + 1) text uid prio sd st].
Proof. rewrite add_task_eq. reflexivity. Qed.

Lemma add_task_outbox env text uid prio sd st s :
  outbox (snd (add_task env text uid prio sd st s)) = outbox s.
Proof. rewrite add_task_eq. reflexivity. Qed.

(** X13: [add_task_command] without words replies with the usage text and
    changes nothing.  With words it appends exactly one task: owned by the
    sender, uncompleted, without schedule, with the next id, and with a
    priority that is one of [PRIORITIES] whatever the words are. *)
Theorem add_task_command_effect env uid args s :
  match args with
  | [] => add_task_command env uid args s = (Ok reply_add_usage, s)
  | _ :: _ =>
      exists priority task_text,
        in_list priority PRIORITIES = true
        /\ fst (add_task_command env uid args s)
           = Ok (reply_added priority (Z.of_nat (length (tasks s)) + 1) task_text)
        /\ tasks (snd (add_task_command env uid args s))
           = tasks s ++
             [new_task env (Z.of_nat (length (tasks s)) + 1) task_text uid
                priority None None]
        /\ outbox (snd (add_task_command env uid args s)) = outbox s
  end.
Proof.
  destruct args as [|a rest]; [reflexivity|].
  unfold add_task_command.
  destruct ((1 <? length (str_split (join " " (a :: rest))))%nat
            && in_list (str_lower (last_word (str_split (join " " (a :: rest)))))
                 PRIORITIES) eqn:Ec.
  - apply andb_true_iff in Ec as [_ Hin].
    exists (str_lower (last_word (str_split (join " " (a :: rest))))),
           (join " " (removelast (str_split (join " " (a :: rest))))).
    rewrite add_then_reply. cbn [fst snd].
    rewrite add_task_tasks, add_task_outbox. auto.
  - exists "средний", (join " " (a :: rest)).
    rewrite add_then_reply. cbn [fst snd].
    rewrite add_task_tasks, add_task_outbox. auto.
Qed.

(** X14: [schedule_command] either rejects the command, replying with one
    of its four error texts and changing nothing, or appends exactly one
    task.  A task is appended only if at least three words were given and
    the stored date and the stored time both parse; its priority is one of
    [PRIORITIES] and it is owned by the sender. *)
Theorem schedule_command_validates env uid args s :
  let r := schedule_command env uid args s in
  (snd r = s
   /\ (fst r = Ok reply_schedule_usage \/ fst r = Ok reply_bad_format
       \/ fst r = Ok reply_bad_date \/ fst r = Ok reply_bad_time))
  \/ (exists priority task_text ds ts,
        (3 <= length args)%nat
        /\ in_list priority PRIORITIES = true
        /\ is_Some (strptime_dmy ds)
        /\ is_Some (strptime_hm ts)
        /\ fst r = Ok (reply_scheduled priority
                         (Z.of_nat (length (tasks s)) + 1) task_text ds ts)
        /\ tasks (snd r)
           = tasks s ++
             [new_task env (Z.of_nat (length (tasks s)) + 1) task_text uid
                priority (Some ds) (Some ts)]
        /\ outbox (snd r) = outbox s).
Proof.
  intros r. subst r. unfold schedule_command.
  destruct (length args <? 3)%nat eqn:Elen; [left; simpl; auto|].
  apply Nat.ltb_ge in Elen.
  assert (Htail : forall priority a,
            in_list priority PRIORITIES = true ->
            let r :=
              match rsplit2 a with
              | [task_text; scheduled_date; scheduled_time] =>
                  match strptime_dmy scheduled_date with
                  | None => mret reply_bad_date
                  | Some _ =>
                      match strptime_hm scheduled_time with
                      | None => mret reply_bad_time
                      | Some _ =>
                          task_id ← add_task env task_text uid priority
                                      (Some scheduled_date) (Some scheduled_time);
                          mret (reply_scheduled priority task_id task_text
                                  scheduled_date scheduled_time)
                      end
                  end
              | _ => mret reply_bad_format
              end s in
            (snd r = s
             /\ (fst r = Ok reply_schedule_usage \/ fst r = Ok reply_bad_format
                 \/ fst r = Ok reply_bad_date \/ fst r = Ok reply_bad_time))
            \/ (exists priority task_text ds ts,
                  (3 <= length args)%nat
                  /\ in_list priority PRIORITIES = true
                  /\ is_Some (strptime_dmy ds)
                  /\ is_Some (strptime_hm ts)
                  /\ fst r = Ok (reply_scheduled priority
                                   (Z.of_nat (length (tasks s)) + 1)
                                   task_text ds ts)
                  /\ tasks (snd r)
                     = tasks s ++
                       [new_task env (Z.of_nat (length (tasks s)) + 1)
                          task_text uid priority (Some ds) (Some ts)]
                  /\ outbox (snd r) = outbox s)).
  { intros priority a Hin r.
    subst r. destruct (rsplit2 a) as [|x [|y [|z [|w l]]]];
      try (left; simpl; auto; fail).
    destruct (strptime_dmy y) as [d|] eqn:Ed; [|left; simpl; auto].
    destruct (strptime_hm z) as [tm|] eqn:Et; [|left; simpl; auto].
    right. exists priority, x, y, z.
    rewrite add_then_reply. simpl. rewrite add_task_tasks, add_task_outbox.
    rewrite Ed, Et. repeat split; eauto. }
  destruct ((3 <=? length (str_split (join " " args)))%nat
            && in_list (str_lower (last_word (str_split (join " " args))))
                 PRIORITIES) eqn:Ec.
  - apply andb_true_iff in Ec as [_ Hin]. apply Htail. exact Hin.
  - apply Htail. reflexivity.
Qed.

(** X15: [schedule_command] accepts a well-formed command.  Let the words
    be a non-empty text, a date and a time that parse, and possibly a
    priority, none holding white space (so that splitting the joined words
    gives them back).  Without a priority word the task is stored with the
    text (its words joined by one space), the date and the time as given
    and the priority [средний]; with a last word whose lower case is one
    of [PRIORITIES], it is stored with that priority. *)
Theorem schedule_command_accepts env uid words d t s :
  words <> [] ->
  has_space d = false ->
  has_space t = false ->
  is_Some (strptime_dmy d) ->
  is_Some (strptime_hm t) ->
  (str_split (join " " (words ++ [d; t])) = words ++ [d; t] ->
   in_list (str_lower t) PRIORITIES = false ->
   schedule_command env uid (words ++ [d; t]) s
   = (Ok (reply_scheduled "средний" (Z.of_nat (length (tasks s)) + 1)
            (join " " words) d t),
      snd (add_task env (join " " words) uid "средний" (Some d) (Some t) s)))
  /\ (forall p,
        str_split (join " " (words ++ [d; t; p])) = words ++ [d; t; p] ->
        in_list (str_lower p) PRIORITIES = true ->
        schedule_command env uid (words ++ [d; t; p]) s
        = (Ok (reply_scheduled (str_lower p) (Z.of_nat (length (tasks s)) + 1)
                 (join " " words) d t),
           snd (add_task env (join " " words) uid (str_lower p)
                  (Some d) (Some t) s))).
Proof.
  intros Hne Hd Ht [dd Edd] [tt Ett].
  assert (Hjoin : join " " (words ++ [d; t])
                  = join " " words +:+ " " +:+ d +:+ " " +:+ t).
  { change (words ++ [d; t]) with (words ++ [d] ++ [t]).
    rewrite app_assoc, join_snoc.
    2: { intros E. apply app_eq_nil in E as [_ E]. discriminate. }
    rewrite join_snoc by exact Hne.
    rewrite !string_app_assoc. reflexivity. }
  split.
  - intros Hsplit Hnot. unfold schedule_command.
    assert (Elen : (length (words ++ [d; t]) <? 3)%nat = false).
    { apply Nat.ltb_ge. rewrite length_app. simpl.
      destruct words; [congruence|simpl; lia]. }
    rewrite Elen, Hsplit.
    change (words ++ [d; t]) with (words ++ [d] ++ [t]) at 2.
    rewrite app_assoc, last_word_snoc, Hnot, andb_false_r.
    rewrite Hjoin, rsplit2_three, Edd, Ett by assumption.
    apply add_then_reply.
  - intros p Hsplit Hin. unfold schedule_command.
    assert (Elen : (length (words ++ [d; t; p]) <? 3)%nat = false).
    { apply Nat.ltb_ge. rewrite length_app. simpl. lia. }
    assert (Elen' : (3 <=? length (words ++ [d; t; p]))%nat = true).
    { apply Nat.leb_le. rewrite length_app. simpl. lia. }
    rewrite Elen, Hsplit, Elen'.
    change (words ++ [d; t; p]) with (words ++ [d; t] ++ [p]).
    rewrite app_assoc, last_word_snoc, Hin, removelast_last. simpl.
    rewrite Hjoin, rsplit2_three, Edd, Ett by assumption.
    apply add_then_reply.
Qed.

Lemma done_command_state env uid args s :
  snd (done_command env uid args s) = s
  \/ exists tid,
       snd (done_command env uid args s) = snd (mark_task_done env uid tid s).
Proof.
  unfold done_command. destruct args as [|arg rest]; [left; reflexivity|].
  destruct (str_int arg) as [tid|]; [|left; reflexivity].
  right. exists tid. unfold mbind, M_bind.
  destruct (mark_task_done env uid tid s) as [[[]|e] s']; reflexivity.
Qed.

(** X16: [done_command] never touches the task of another user: whatever
    the words are, the list keeps its length, no reminder is recorded, every
    task is afterwards as it was or is the same task marked completed, and
    a task whose owner is not the sender is exactly as it was. *)
Theorem done_command_own_tasks_only env uid args s :
  let s' := snd (done_command env uid args s) in
  length (tasks s') = length (tasks s)
  /\ outbox s' = outbox s
  /\ (forall i task, tasks s !! i = Some task ->
        tasks s' !! i = Some task
        \/ (user_id task = uid /\ tasks s' !! i = Some (mark_done env task)))
  /\ (forall i task, tasks s !! i = Some task -> user_id task <> uid ->
        tasks s' !! i = Some task).
Proof.
  intros s'. subst s'.
  assert (Hcases : forall i task, tasks s !! i = Some task ->
            tasks (snd (done_command env uid args s)) !! i = Some task
            \/ (user_id task = uid
                /\ tasks (snd (done_command env uid args s)) !! i
                   = Some (mark_done env task))).
  { intros i task Hi.
    destruct (done_command_state env uid args s) as [-> |[tid ->]]; [auto|].
    rewrite mark_task_done_tasks.
    destruct (list_find _ _) as [[k t]|] eqn:Hf; [|auto].
    apply list_find_Some in Hf as (Hk & [_ Hu] & _).
    destruct (decide (k = i)) as [->|Hne].
    - right. assert (t = task) as -> by congruence.
      split; [exact Hu|].
      apply list_lookup_insert_eq. eapply lookup_lt_Some, Hi.
    - left. rewrite list_lookup_insert_ne by exact Hne. exact Hi. }
  repeat apply conj.
  - destruct (done_command_state env uid args s) as [-> |[tid ->]];
      [reflexivity|].
    rewrite mark_task_done_tasks.
    destruct (list_find _ _) as [[k t]|]; [apply length_insert|reflexivity].
  - destruct (done_command_state env uid args s) as [-> |[tid ->]];
      [reflexivity|apply mark_task_done_outbox].
  - exact Hcases.
  - intros i task Hi Hne. destruct (Hcases i task Hi) as [?|[? _]];
      [assumption|congruence].
Qed.

End HandlerFacts.

(** ** Sessions of commands and ticks *)

Section SessionFacts.

Context `{DatetimeLib} `{StrLib}.

Lemma add_task_command_state env uid args s :
  snd (add_task_command env uid args s) = s
  \/ exists priority task_text,
       in_list priority PRIORITIES = true
       /\ snd (add_task_command env uid args s)
          = snd (add_task env task_text uid priority None None s).
Proof.
  destruct args as [|a rest]; [left; reflexivity|]. right.
  unfold add_task_command.
  destruct ((1 <? length (str_split (join " " (a :: rest))))%nat
            && in_list (str_lower (last_word (str_split (join " " (a :: rest)))))
                 PRIORITIES) eqn:Ec.
  - apply andb_true_iff in Ec as [_ Hin].
    exists (str_lower (last_word (str_split (join " " (a :: rest))))),
           (join " " (removelast (str_split (join " " (a :: rest))))).
    rewrite add_then_reply. auto.
  - exists "средний", (join " " (a :: rest)). rewrite add_then_reply. auto.
Qed.

Lemma schedule_command_state env uid args s :
  snd (schedule_command env uid args s) = s
  \/ exists priority task_text ds ts,
       in_list priority PRIORITIES = true
       /\ is_Some (strptime_dmy ds)
       /\ is_Some (strptime_hm ts)
       /\ snd (schedule_command env uid args s)
          = snd (add_task env task_text uid priority (Some ds) (Some ts) s).
Proof.
  unfold schedule_command.
  destruct (length args <? 3)%nat; [left; reflexivity|].
  set (chosen :=
         if (3 <=? length (str_split (join " " args)))%nat
            && in_list (str_lower (last_word (str_split (join " " args))))
                 PRIORITIES
         then (str_lower (last_word (str_split (join " " args))),
               join " " (removelast (str_split (join " " args))))
         else ("средний", join " " args)).
  assert (Hin : in_list (fst chosen) PRIORITIES = true).
  { subst chosen.
    destruct ((3 <=? length (str_split (join " " args)))%nat
              && in_list (str_lower (last_word (str_split (join " " args))))
                   PRIORITIES) eqn:Ec; [|reflexivity].
    apply andb_true_iff in Ec as [_ Hin]. exact Hin. }
  destruct chosen as [priority a]. simpl in Hin.
  destruct (rsplit2 a) as [|x [|y [|z [|w l]]]]; try (left; reflexivity).
  destruct (strptime_dmy y) as [d|] eqn:Ed; [|left; reflexivity].
  destruct (strptime_hm z) as [tm|] eqn:Et; [|left; reflexivity].
  right. exists priority, x, y, z. rewrite add_then_reply, Ed, Et. eauto.
Qed.

Lemma run_op_create env text uid prio sd st s :
  fst (run_op env (Create text uid prio sd st) s)
  = snd (add_task env text uid prio sd st s).
Proof. simpl. rewrite add_task_eq. reflexivity. Qed.

(** A command does nothing to the state or does what one operation of
    the task manager does. *)
Lemma run_cmd_is_op env cmd s :
  run_cmd env cmd s = s
  \/ exists op, run_cmd env cmd s = fst (run_op env op s).
Proof.
  destruct cmd as [uid args|uid args|uid args|]; simpl.
  - destruct (add_task_command_state env uid args s)
      as [->|(prio & text & _ & ->)]; [auto|].
    right. exists (Create text uid prio None None).
    rewrite run_op_create. reflexivity.
  - destruct (schedule_command_state env uid args s)
      as [->|(prio & text & ds & ts & _ & _ & _ & ->)]; [auto|].
    right. exists (Create text uid prio (Some ds) (Some ts)).
    rewrite run_op_create. reflexivity.
  - destruct (done_command_state env uid args s) as [->|[tid ->]]; [auto|].
    right. exists (Complete uid tid). reflexivity.
  - right. exists Tick. reflexivity.
Qed.

Lemma well_formed_mark_done env task :
  well_formed task -> well_formed (mark_done env task).
Proof. intros Hw. exact Hw. Qed.

Lemma well_formed_clear_schedule task :
  well_formed task -> well_formed (clear_schedule task).
Proof. intros [Hp _]. split; [exact Hp|]. left. auto. Qed.

Lemma well_formed_run_cmd env cmd s :
  Forall well_formed (tasks s) -> Forall well_formed (tasks (run_cmd env cmd s)).
Proof.
  intros Hall. destruct cmd as [uid args|uid args|uid args|]; simpl.
  - destruct (add_task_command_state env uid args s)
      as [->|(prio & text & Hin & ->)]; [exact Hall|].
    apply Forall_add_task; [|exact Hall]. split; [exact Hin|]. left. auto.
  - destruct (schedule_command_state env uid args s)
      as [->|(prio & text & ds & ts & Hin & [d Ed] & [tm Et] & ->)];
      [exact Hall|].
    apply Forall_add_task; [|exact Hall]. split; [exact Hin|]. right.
    exists (combine d tm). apply (due_instant_Some _ ds ts d tm); auto.
  - destruct (done_command_state env uid args s) as [->|[tid ->]];
      [exact Hall|].
    apply Forall_mark_task_done; [|exact Hall].
    intros task. apply well_formed_mark_done.
  - apply Forall_tick; [|exact Hall]. apply well_formed_clear_schedule.
Qed.

Lemma run_op_keeps env op s :
  numbered (tasks s) /\ Forall completion_consistent (tasks s) ->
  numbered (tasks (fst (run_op env op s)))
  /\ Forall completion_consistent (tasks (fst (run_op env op s))).
Proof.
  intros [Hn Hc]. split;
    [apply numbered_run_op, Hn|apply completion_consistent_run_op, Hc].
Qed.

(** X17: over every session of [/add], [/schedule], [/done] commands and
    ticks, whatever the words of the commands, the list keeps these
    properties if it has them at the start (the empty list has them): the
    task at position [k] has id [k + 1]; a task is completed exactly when
    it has a completion time; every task has a priority of [PRIORITIES]
    and either no schedule at all or a date and a time that both parse, so
    that a time is never stored without a date. *)
Theorem session_invariants cmds s :
  numbered (tasks s) ->
  Forall completion_consistent (tasks s) ->
  Forall well_formed (tasks s) ->
  numbered (tasks (run_cmds cmds s))
  /\ Forall completion_consistent (tasks (run_cmds cmds s))
  /\ Forall well_formed (tasks (run_cmds cmds s))
  /\ Forall (fun task =>
       is_Some (scheduled_time task) -> is_Some (scheduled_date task))
       (tasks (run_cmds cmds s)).
Proof.
  intros Hn Hc Hw.
  assert (Hinv : numbered (tasks (run_cmds cmds s))
                 /\ Forall completion_consistent (tasks (run_cmds cmds s))
                 /\ Forall well_formed (tasks (run_cmds cmds s))).
  { revert s Hn Hc Hw.
    induction cmds as [|[env cmd] rest IH]; intros s Hn Hc Hw; [auto|].
    simpl. pose proof (well_formed_run_cmd env cmd s Hw) as Hw'.
    destruct (run_cmd_is_op env cmd s) as [E|[op E]]; rewrite E in *.
    - apply IH; assumption.
    - destruct (run_op_keeps env op s (conj Hn Hc)) as [Hn' Hc'].
      apply IH; assumption. }
  destruct Hinv as (Hn' & Hc' & Hw'). repeat split; auto.
  eapply Forall_impl; [exact Hw'|]. simpl.
  intros task [_ [[_ Et]|[instant Ei]]] [ts Hts]; [congruence|].
  unfold due_instant in Ei.
  destruct (scheduled_date task) as [ds|]; [eauto|discriminate].
Qed.

(** The operations that leave a task waiting leave it exactly as it is
    and deliver nothing for it. *)
Lemma waiting_run i task instant ops : forall s,
  tasks s !! i = Some task ->
  due_instant task = Some instant ->
  Forall (leaves_waiting (user_id task) (id task) instant) ops ->
  tasks (fst (run ops s)) !! i = Some task
  /\ fired i (fst (run ops s)) = fired i s.
Proof.
  induction ops as [|[env op] rest IH]; intros s Hi Hinst Hall; [auto|].
  apply Forall_cons in Hall as [Hop Hall].
  rewrite run_cons. cbn [fst].
  assert (Hstep : tasks (fst (run_op env op s)) !! i = Some task
                  /\ fired i (fst (run_op env op s)) = fired i s).
  { destruct op as [text owner prio sd st|owner tid|].
    - rewrite run_op_create. split.
      + rewrite add_task_tasks. apply lookup_app_l_Some. exact Hi.
      + unfold fired. rewrite add_task_outbox. reflexivity.
    - cbn [run_op fst]. split.
      + rewrite mark_task_done_tasks.
        destruct (list_find _ _) as [[k t]|] eqn:Hf; [|exact Hi].
        apply list_find_Some in Hf as (Hk & [Hid Hu] & _).
        destruct (decide (k = i)) as [->|Hne].
        * exfalso. apply Hop. assert (t = task) as -> by congruence. auto.
        * rewrite list_lookup_insert_ne by exact Hne. exact Hi.
      + unfold fired. rewrite mark_task_done_outbox. reflexivity.
    - cbn [run_op fst]. apply tick_not_due; [exact Hi|].
      unfold leaves_waiting in Hop. cbn [fst snd] in Hop.
      rewrite datetime_ltb_geb in Hop. apply negb_true_iff in Hop.
      unfold due. rewrite Hinst. exact Hop. }
  destruct Hstep as [Hi1 Hf1].
  destruct (IH _ Hi1 Hinst Hall) as [Hi2 Hf2].
  split; [exact Hi2|congruence].
Qed.

(** X18: a task created with a date and a time that parse, and not
    completed since, gets its reminder at the first tick whose clock has
    reached the instant, when [app_instance] is assigned and the notifier
    delivers.  Between the creation and that tick there may be any
    creations, any completions asked for another id or by another owner,
    and any ticks before the instant (whose sends may fail): they leave
    the task as it is and deliver nothing for it.  The tick then records
    one reminder for it, addressed to its owner with the text rendered
    from the task, and the task stays in the list with its schedule
    cleared. *)
Theorem scheduled_task_gets_reminder env env' text uid prio ds ts d tm s ops :
  strptime_dmy ds = Some d ->
  strptime_hm ts = Some tm ->
  app_instance env' = true ->
  (forall chat message, send env' chat message = Delivered) ->
  datetime_geb (now env') (combine d tm) = true ->
  let i := length (tasks s) in
  let task := new_task env (Z.of_nat i + 1) text uid prio (Some ds) (Some ts) in
  let s1 := snd (add_task env text uid prio (Some ds) (Some ts) s) in
  Forall (leaves_waiting uid (Z.of_nat i + 1) (combine d tm)) ops ->
  let s2 := fst (run ops s1) in
  let s3 := snd (send_reminders_sync env' s2) in
  tasks s2 !! i = Some task
  /\ fired i s2 = fired i s1
  /\ fired i s3 = S (fired i s2)
  /\ tasks s3 !! i = Some (clear_schedule task)
  /\ exists m, m ∈ outbox s3 /\ sent_ref m = i /\ sent_chat m = uid
       /\ sent_text m = reminder_message task.
Proof.
  intros Ed Et Happ Hrel Hge i task s1 Hall s2 s3.
  assert (Hi1 : tasks s1 !! i = Some task).
  { subst s1. rewrite add_task_tasks. apply list_lookup_middle. reflexivity. }
  assert (Hinst : due_instant task = Some (combine d tm)).
  { apply (due_instant_Some task ds ts d tm); auto. }
  destruct (waiting_run i task (combine d tm) ops s1 Hi1 Hinst Hall)
    as [Hi Hwait].
  fold s2 in Hi, Hwait.
  assert (Hsched : is_scheduled task = true).
  { apply (parsed_is_scheduled task ds ts d tm); auto. }
  assert (Hdue : due env' task = true).
  { unfold due. rewrite Hinst. exact Hge. }
  split; [exact Hi|]. split; [exact Hwait|].
  subst s3. rewrite tick_eq, Happ.
  destruct (for_each _ _ s2) as [r s3] eqn:E. simpl.
  assert (Hf : fired i s3 = S (fired i s2)).
  { apply (loop_fires env' i task (get_scheduled_tasks s2) s2 r s3).
    - apply refs_from_sorted.
    - apply elem_of_get_scheduled_tasks. eauto.
    - exact Hi.
    - exact Hdue.
    - apply Hrel.
    - intros j Hj _.
      apply elem_of_get_scheduled_tasks in Hj as (tj & Hj & _).
      exists tj. split; [exact Hj|]. rewrite Hrel. discriminate.
    - exact E. }
  split; [exact Hf|]. split.
  - destruct (loop_at _ _ _ _ _ _ _ Hi E) as [[_ ?]|(? & _)]; [lia|assumption].
  - destruct (loop_outbox _ _ _ _ _ E) as (new & Eo & Hnew).
    unfold fired in Hf. rewrite Eo, filter_app, length_app in Hf.
    destruct (filter (fun m => sent_ref m = i) new) as [|m rest] eqn:Efil;
      [simpl in Hf; lia|].
    assert (Hm : m ∈ filter (fun m => sent_ref m = i) new)
      by (rewrite Efil; left).
    apply list_elem_of_filter in Hm as [Href Hm].
    rewrite Forall_forall in Hnew.
    destruct (Hnew m Hm) as (_ & t & Ht & _ & Hchat & Htext).
    rewrite Href, Hi in Ht. injection Ht as <-.
    exists m. rewrite Eo. split; [apply elem_of_app; right; exact Hm|].
    auto.
Qed.

End SessionFacts.

(** ** The further properties on concrete task lists *)

Module MoreChecks.

Import Strict StrictStr Example.

Ltac each_position k Hk :=
  repeat (destruct k as [|k]; [vm_compute in Hk; injection Hk as <-|]);
  [..|vm_compute in Hk; discriminate].

Lemma numbered_empty : numbered (tasks empty).
Proof. intros k task Hk. destruct k; discriminate. Defined.

(** A session: user 7 schedules a meeting, user 8 adds a task, the timer
    ticks in the afternoon, user 7 completes the meeting. *)
Example session_tasks :
  tasks (run_cmds
           [(env_at noon,
             CmdSchedule 7 ["Встреча"; "с"; "клиентом"; "20.01.2024"; "15:00"]);
            (env_at noon, CmdAdd 8 ["Купить"; "молоко"; "НИЗКИЙ"]);
            (env_at afternoon, CmdTick);
            (env_at evening, CmdDone 7 ["1"])]
           empty)
  = [mkTask 1 "Встреча с клиентом" 7 "средний" true "2024-01-20T12:00:00"
       (Some "2024-01-20T18:00:00") None None;
     mkTask 2 "Купить молоко" 8 "низкий" false "2024-01-20T12:00:00"
       None None None].
Proof. reflexivity. Qed.

Lemma restart_loads_memory_witness :
  tasks (init (file (fst (run [(env_at noon, Create "a" 7 "средний" None None);
                               (env_at evening, Complete 7 1);
                               (env_at evening, Tick)] (init None)))))
  = tasks (fst (run [(env_at noon, Create "a" 7 "средний" None None);
                     (env_at evening, Complete 7 1);
                     (env_at evening, Tick)] (init None))).
Proof.
  apply (restart_loads_memory (H := Strict.lib)).
  repeat constructor.
Defined.

Lemma complete_moves_one_task_witness :
  length (get_user_tasks 7 (Some false)
            (snd (mark_task_done (env_at evening) 7 1 two_scheduled))) = 0%nat
  /\ get_user_tasks 8 None (snd (mark_task_done (env_at evening) 7 1 two_scheduled))
     = get_user_tasks 8 None two_scheduled.
Proof.
  destruct (complete_moves_one_task (env_at evening) 7 1 two_scheduled 0
              (new_task (env_at noon) 1 "call" 7 "средний"
                 (Some "20.01.2024") (Some "15:00")) eq_refl)
    as (Hother & _ & Hactive & _).
  destruct (Hactive eq_refl) as [Hless _].
  split; [|apply Hother; lia].
  change (length (get_user_tasks 7 (Some false) two_scheduled)) with 1%nat in Hless.
  lia.
Defined.

Lemma completion_consistent_run_witness :
  Forall completion_consistent
    (tasks (fst (run [(env_at noon, Create "a" 7 "средний" None None);
                      (env_at evening, Complete 7 1)] empty))).
Proof.
  apply (completion_consistent_run (H := Strict.lib)). constructor.
Defined.

Lemma numbered_run_witness :
  NoDup (id <$> tasks (fst (run [(env_at noon, Create "a" 7 "средний" None None);
                                 (env_at noon, Create "b" 8 "низкий" None None);
                                 (env_at evening, Complete 7 1)] empty))).
Proof.
  apply (numbered_run (H := Strict.lib)). exact numbered_empty.
Defined.

Lemma mark_task_done_numbered_witness :
  fst (mark_task_done (env_at evening) 8 2 two_scheduled) = Ok true
  /\ ~ fst (mark_task_done (env_at evening) 8 1 two_scheduled) = Ok true.
Proof.
  assert (Hn : numbered (tasks two_scheduled)).
  { intros k task Hk. each_position k Hk; reflexivity. }
  split.
  - apply (mark_task_done_numbered (env_at evening) 8 2 two_scheduled Hn).
    split; [lia|]. eexists. split; reflexivity.
  - intros Hyes.
    apply (mark_task_done_numbered (env_at evening) 8 1 two_scheduled Hn) in Hyes
      as (_ & task & Hk & Hu).
    vm_compute in Hk. injection Hk as <-. discriminate.
Defined.

Lemma tick_nothing_due_witness :
  send_reminders_sync (env_at noon) two_scheduled = (Ok tt, two_scheduled).
Proof.
  apply tick_nothing_due. intros i task Hi _.
  each_position i Hi; reflexivity.
Defined.

Lemma tick_delivers_all_due_witness :
  fst (send_reminders_sync (env_at afternoon) two_scheduled) = Ok tt
  /\ get_scheduled_tasks (snd (send_reminders_sync (env_at afternoon) two_scheduled))
     = [].
Proof.
  destruct (tick_delivers_all_due (env_at afternoon) two_scheduled eq_refl
              (fun _ _ => eq_refl)) as (Hok & _ & _).
  split; [exact Hok|reflexivity].
Defined.

Lemma tick_frame_witness :
  tasks (snd (send_reminders_sync env_down two_scheduled)) !! 1%nat
  = tasks two_scheduled !! 1%nat
  /\ length (tasks (snd (send_reminders_sync env_down two_scheduled))) = 2%nat.
Proof.
  destruct (tick_frame env_down two_scheduled 1
              (new_task (env_at noon) 2 "pay" 8 "высокий"
                 (Some "20.01.2024") (Some "14:00")) eq_refl)
    as (Hlen & _ & _).
  split; [reflexivity|exact Hlen].
Defined.

Lemma due_stays_due_witness :
  due (env_at evening)
    (new_task (env_at noon) 1 "call" 7 "средний"
       (Some "20.01.2024") (Some "15:00")) = true.
Proof.
  apply (due_stays_due (env_at afternoon) (env_at evening)); reflexivity.
Defined.

Lemma schedule_command_accepts_witness :
  tasks (snd (schedule_command (env_at noon) 7
                ["Встреча"; "с"; "клиентом"; "20.01.2024"; "15:00"; "Высокий"]
                empty))
  = [mkTask 1 "Встреча с клиентом" 7 "высокий" false "2024-01-20T12:00:00"
       None (Some "20.01.2024") (Some "15:00")].
Proof.
  destruct (schedule_command_accepts (H := Strict.lib) (H0 := StrictStr.lib)
              (env_at noon) 7 ["Встреча"; "с"; "клиентом"]
              "20.01.2024" "15:00" empty)
    as [_ Hprio].
  - discriminate.
  - reflexivity.
  - reflexivity.
  - eexists. reflexivity.
  - eexists. reflexivity.
  - pose proof (Hprio "Высокий" eq_refl eq_refl) as E.
    cbn [app] in E. rewrite E. reflexivity.
Defined.

Lemma session_invariants_witness :
  Forall well_formed
    (tasks (run_cmds
              [(env_at noon,
                CmdSchedule 7 ["Встреча"; "с"; "клиентом"; "20.01.2024"; "15:00"]);
               (env_at noon, CmdSchedule 7 ["x"; "32.13.2024"; "15:00"]);
               (env_at noon, CmdAdd 8 ["Купить"; "молоко"; "НИЗКИЙ"]);
               (env_at afternoon, CmdTick);
               (env_at evening, CmdDone 7 ["1"])]
              empty)).
Proof.
  apply (session_invariants (H := Strict.lib) (H0 := StrictStr.lib)).
  - exact numbered_empty.
  - constructor.
  - constructor.
Defined.

Lemma scheduled_task_gets_reminder_witness :
  let s2 :=
    fst (run [(mkEnv true noon (fails_for 7) disk_ok, Tick);
              (env_at noon, Create "pay" 8 "высокий" None None);
              (env_at noon, Complete 8 2);
              (env_at noon, Complete 7 5)] one_scheduled) in
  fired 0 s2 = 0%nat
  /\ fired 0 (snd (send_reminders_sync (env_at afternoon) s2)) = 1%nat.
Proof.
  intros s2.
  destruct (scheduled_task_gets_reminder (H := Strict.lib)
              (env_at noon) (env_at afternoon) "call" 7 "средний"
              "20.01.2024" "15:00" (mkdate 2024 1 20) (mktime 15 0 0 0) empty
              [(mkEnv true noon (fails_for 7) disk_ok, Tick);
               (env_at noon, Create "pay" 8 "высокий" None None);
               (env_at noon, Complete 8 2);
               (env_at noon, Complete 7 5)]
              eq_refl eq_refl eq_refl (fun _ _ => eq_refl) eq_refl)
    as (_ & _ & Hf & _).
  - repeat constructor; cbn; lia.
  - split; [reflexivity|]. exact Hf.
Defined.

End MoreChecks.
